(** * Vulkan video decoder: frame slot table, logger and parameter-set cache

    A shallow embedding of
      - [vk_video_decoder/libs/VkVideoDecoder/VkVideoDecoder.h]
        ([NvVkDecodeFrameData], [VkVideoDecoder::GetCurrentFrameData]) and
      - [vk_video_decoder/libs/NvCodecUtils/Logger.h]
        ([simplelogger::Logger], [simplelogger::LogTransaction]),
    together with models of the parameter-set cache and of the bounded
    recyclable pool, whose bodies live in translation units that are not
    part of the two headers.

    Conventions.
      - Machine integers are [Z] with the wrap-around written out
        ([uint32_t_of], [size_t_of], [int32_t_of]).
      - [assert(e)] is the standard macro of a build without [NDEBUG]:
        a false condition aborts the process ([Abort]).  The diagnostic
        the macro prints before it aborts is not recorded: [stderr] of the
        [World] holds what the program's own [fprintf] calls wrote.
      - [std::vector::resize] is total here: the [std::length_error] it
        throws beyond [max_size()] is outside the embedding.
      - [&v[i]] is read as the address [v.data() + i]; a store through it
        that falls outside [0, v.size()) is not visible in the vector.
      - Vulkan handles are integers, [VK_NULL_HANDLE] is 0, and
        [VK_SUCCESS] is 0, as in the Vulkan headers. *)

From stdpp Require Import base numbers list gmap strings pretty.
From Stdlib Require Import ZArith Lia.

Local Open Scope Z_scope.

(** ** Machine integers *)

Definition uint32_t_of (z : Z) : Z := z mod 2 ^ 32.
Definition size_t_of (z : Z) : Z := z mod 2 ^ 64.
Definition int32_t_of (z : Z) : Z := (z + 2 ^ 31) mod 2 ^ 32 - 2 ^ 31.

Definition INT32_MAX : Z := 2 ^ 31 - 1.
Definition UINT32_MAX : Z := 2 ^ 32 - 1.

(** ** A state monad with assertion failure and process exit

    [Ret a s] is a normal return, [Abort s] a failed [assert] and
    [Exit c s] a call of [exit(c)]; all carry the state reached, so that
    what was done before the process stopped remains observable. *)

Inductive outcome (S A : Type) : Type :=
| Ret (a : A) (s : S)
| Abort (s : S)
| Exit (code : Z) (s : S).
Arguments Ret {S A} a s.
Arguments Abort {S A} s.
Arguments Exit {S A} code s.

Definition M (S A : Type) : Type := S → outcome S A.

Definition ret {S A} (a : A) : M S A := λ s, Ret a s.

Definition bind {S A B} (m : M S A) (k : A → M S B) : M S B :=
  λ s, match m s with
       | Ret a s' => k a s'
       | Abort s' => Abort s'
       | Exit c s' => Exit c s'
       end.

Definition gets {S A} (f : S → A) : M S A := λ s, Ret (f s) s.
Definition modify {S} (f : S → S) : M S unit := λ s, Ret tt (f s).

(** [assert(e)] *)
Definition assert {S} (b : bool) : M S unit :=
  λ s, if b then Ret tt s else Abort s.

(** [if (b) { m }] *)
Definition when {S} (b : bool) (m : M S unit) : M S unit :=
  if b then m else ret tt.

(** Run a computation on a component of the state. *)
Definition zoom {S T A} (proj : S → T) (inj : T → S → S) (m : M T A) : M S A :=
  λ s, match m (proj s) with
       | Ret a t => Ret a (inj t s)
       | Abort t => Abort (inj t s)
       | Exit c t => Exit c (inj t s)
       end.

Declare Scope m_scope.
Delimit Scope m_scope with M.
Notation "'let*' x ':=' m 'in' k" := (bind m (λ x, k))
  (at level 10, x name, m at level 100, k at level 200) : m_scope.
Notation "m ;;; k" := (bind m (λ _, k))
  (at level 200, right associativity) : m_scope.

(** [exit(code)] *)
Definition exit {S A} (code : Z) : M S A := λ s, Exit code s.

Definition returned {S A} (o : outcome S A) : bool :=
  match o with Ret _ _ => true | _ => false end.

Definition final_state {S A} (o : outcome S A) : S :=
  match o with Ret _ s => s | Abort s => s | Exit _ s => s end.

(** ** Vulkan handles and the device interface *)

Abbreviation VkResult := Z (only parsing).
Definition VK_SUCCESS : VkResult := 0.
Definition VK_ERROR_OUT_OF_DEVICE_MEMORY : VkResult := -2.

Abbreviation VkCommandPool := Z (only parsing).
Abbreviation VkCommandBuffer := Z (only parsing).
Definition VK_NULL_HANDLE : Z := 0.

Definition VK_STRUCTURE_TYPE_COMMAND_POOL_CREATE_INFO : Z := 39.
Definition VK_STRUCTURE_TYPE_COMMAND_BUFFER_ALLOCATE_INFO : Z := 40.
Definition VK_COMMAND_POOL_CREATE_RESET_COMMAND_BUFFER_BIT : Z := 2.
Definition VK_COMMAND_BUFFER_LEVEL_PRIMARY : Z := 0.

Record VkCommandPoolCreateInfo := {
  cpci_sType : Z;
  cpci_flags : Z;
  cpci_queueFamilyIndex : Z
}.

Record VkCommandBufferAllocateInfo := {
  cbai_sType : Z;
  cbai_commandPool : VkCommandPool;
  cbai_level : Z;
  cbai_commandBufferCount : Z
}.

(** [VulkanDeviceContext] is declared in [VkCodecUtils/VulkanDeviceContext.h],
    outside the two headers: the embedding takes it as an interface.  [D] is
    the state of the driver behind the context.  [CreateCommandPool] returns
    the value it stores through [pCommandPool]; [AllocateCommandBuffers]
    returns the handles it stores through [pCommandBuffers], in order. *)
Class VulkanDeviceContext (D : Type) := {
  GetVideoDecodeQueueFamilyIdx : D → Z;
  CreateCommandPool : D → VkCommandPoolCreateInfo → VkResult * VkCommandPool * D;
  AllocateCommandBuffers :
    D → VkCommandBufferAllocateInfo → VkResult * list VkCommandBuffer * D;
  FreeCommandBuffers : D → VkCommandPool → Z → list VkCommandBuffer → D;
  DestroyCommandPool : D → VkCommandPool → D
}.

(** The calls a frame slot table makes on its device, with what came back. *)
Inductive DeviceCall :=
| CallCreateCommandPool (info : VkCommandPoolCreateInfo)
    (result : VkResult) (pool : VkCommandPool)
| CallAllocateCommandBuffers (info : VkCommandBufferAllocateInfo)
    (firstSlot : Z) (result : VkResult)
| CallFreeCommandBuffers (pool : VkCommandPool) (count : Z)
    (buffers : list VkCommandBuffer)
| CallDestroyCommandPool (pool : VkCommandPool).

Definition call_result (c : DeviceCall) : VkResult :=
  match c with
  | CallCreateCommandPool _ r _ => r
  | CallAllocateCommandBuffers _ _ r => r
  | CallFreeCommandBuffers _ _ _ => VK_SUCCESS
  | CallDestroyCommandPool _ => VK_SUCCESS
  end.

Definition is_create (c : DeviceCall) : bool :=
  match c with CallCreateCommandPool _ _ _ => true | _ => false end.

(** What lies outside the object: the driver, the log of calls made on it,
    and what was printed on [stderr] (format string and argument). *)
Record World (D : Type) := {
  device : D;
  calls : list DeviceCall;
  stderr : list (string * Z)
}.
Arguments device {D} _.
Arguments calls {D} _.
Arguments stderr {D} _.

(** ** The bounded recyclable pool

    [VkVideoDecoder.h] only instantiates the class template
    [VulkanVideoRefCountedPool] (with 64 nodes); the template itself is in
    [VkCodecUtils/VulkanVideoReferenceCountedPool.h]. *)

Module Pool.

(** Modelled from the spec: a [PoolEntry] of the data model, "a
    GPU-resource slot with an owning refcount, a free/in-use state, and the
    capacity-indexed identity within its pool"; the identity is the index
    of the entry in [slots]. *)
Record PoolEntry := {
  capacity : Z;
  refcount : nat;
  in_use : bool
}.

(** Modelled from the spec: the pool of section 4.2, with its upper
    bound and the slots backed so far (storage is allocated lazily). *)
Record Pool := {
  maxPoolNodes : nat;
  slots : list PoolEntry
}.

(** Modelled from the spec: what [acquire] yields, "handle | FAILURE",
    the failure being [ResourceExhausted]. *)
Inductive AcquireResult :=
| Acquired (handle : nat)
| ResourceExhausted.

(** Modelled from the spec: a pool with no slot backed yet. *)
Definition empty (n : nat) : Pool := {| maxPoolNodes := n; slots := [] |}.

Definition set_slots (l : list PoolEntry) (p : Pool) : Pool :=
  {| maxPoolNodes := maxPoolNodes p; slots := l |}.

(** Modelled from the spec: "a slot of sufficient capacity is free". *)
Definition serves (sizeHint : Z) (e : PoolEntry) : Prop :=
  in_use e = false ∧ sizeHint ≤ capacity e.

#[export] Instance serves_dec sizeHint e : Decision (serves sizeHint e).
Proof. unfold serves. apply _. Defined.

(** Modelled from the spec: a slot as [acquire] returns it, "with
    refcount 1". *)
Definition handed_out (e : PoolEntry) : PoolEntry :=
  {| capacity := capacity e; refcount := 1; in_use := true |}.

(** Modelled from the spec: [acquire(sizeHint)], the missing acquisition
    path of [VulkanVideoRefCountedPool]: "if a slot of sufficient capacity
    is free, returns it with refcount 1; if none is free, either grows the
    pool (if an upper bound is not yet reached) or fails with
    ResourceExhausted.  Growing allocates a new slot sized to at least
    sizeHint; existing slots are never resized in place". *)
Definition acquire (sizeHint : Z) : M Pool AcquireResult :=
  (let* l := gets slots in
   let* n := gets maxPoolNodes in
   match list_find (serves sizeHint) l with
   | Some (i, e) =>
       modify (set_slots (<[i := handed_out e]> l)) ;;;
       ret (Acquired i)
   | None =>
       if bool_decide (length l < n)%nat then
         modify (set_slots (l ++ [{| capacity := sizeHint; refcount := 1;
                                     in_use := true |}])) ;;;
         ret (Acquired (length l))
       else ret ResourceExhausted
   end)%M.

(** Modelled from the spec: copying a RefCounted Handle ([AddRef]); on a
    slot that is not handed out this is use-after-release, "a defect, not
    a recoverable runtime state". *)
Definition addRef (h : nat) : M Pool unit :=
  (let* l := gets slots in
   match l !! h with
   | Some e =>
       assert (in_use e) ;;;
       modify (set_slots (<[h := {| capacity := capacity e;
                                    refcount := S (refcount e);
                                    in_use := true |}]> l))
   | None => assert false
   end)%M.

(** Modelled from the spec: destroying a RefCounted Handle ([Release]),
    which "decrements and, on reaching zero, invokes the owner's recycle
    callback exactly once"; the slot goes back to the free set then.
    A release of a free slot is a double release, a defect. *)
Definition release (h : nat) : M Pool unit :=
  (let* l := gets slots in
   match l !! h with
   | Some e =>
       assert (in_use e && bool_decide (0 < refcount e)%nat) ;;;
       let n := pred (refcount e) in
       modify (set_slots (<[h := {| capacity := capacity e;
                                    refcount := n;
                                    in_use := negb (n =? 0)%nat |}]> l))
   | None => assert false
   end)%M.

(** Acquire once per size hint, in order; the handles come back in order. *)
Fixpoint acquire_all (hints : list Z) : M Pool (list AcquireResult) :=
  match hints with
  | [] => ret []
  | h :: hs =>
      (let* r := acquire h in
       let* rs := acquire_all hs in
       ret (r :: rs))%M
  end.

End Pool.

(** [using VulkanBitstreamBufferPool =
       VulkanVideoRefCountedPool<VulkanBitstreamBufferImpl, 64>;] *)
Definition VulkanBitstreamBufferPool : Pool.Pool := Pool.empty 64.

(** ** [struct NvVkDecodeFrameDataSlot] *)

Record NvVkDecodeFrameDataSlot := {
  slot : Z;
  commandBuffer : VkCommandBuffer
}.

(** ** [class NvVkDecodeFrameData]

    [m_vkDevCtx] records whether the pointer is non-null (the driver state
    itself is in the [World]). *)

Record NvVkDecodeFrameData := {
  m_vkDevCtx : bool;
  m_maxCodedWidth : Z;
  m_videoCommandPool : VkCommandPool;
  m_commandBuffers : list VkCommandBuffer;
  m_bitstreamBuffersQueue : Pool.Pool
}.

(** [std::vector<VkCommandBuffer>::resize(n)]: truncates, or pads with
    value-initialised (null) handles.  (For [n] beyond [max_size()] the
    library throws [std::length_error]; that path is not part of the
    embedding.) *)
Definition vector_resize (n : Z) (v : list VkCommandBuffer) : list VkCommandBuffer :=
  list.resize (Z.to_nat n) VK_NULL_HANDLE v.

(** [v.size()] *)
Definition vector_size (v : list VkCommandBuffer) : Z := Z.of_nat (length v).

(** Stores through [&v[first]], [&v[first+1]], ... *)
Definition vector_store (first : Z) (hs v : list VkCommandBuffer) : list VkCommandBuffer :=
  list_inserts (Z.to_nat first) hs v.

Module FrameData.
Section with_device.
Context {D : Type} `{!VulkanDeviceContext D}.

Definition St : Type := NvVkDecodeFrameData * World D.

Definition set_pool (p : VkCommandPool) : M St unit :=
  modify (λ s, ({| m_vkDevCtx := m_vkDevCtx s.1;
                   m_maxCodedWidth := m_maxCodedWidth s.1;
                   m_videoCommandPool := p;
                   m_commandBuffers := m_commandBuffers s.1;
                   m_bitstreamBuffersQueue := m_bitstreamBuffersQueue s.1 |}, s.2)).

Definition set_buffers (v : list VkCommandBuffer) : M St unit :=
  modify (λ s, ({| m_vkDevCtx := m_vkDevCtx s.1;
                   m_maxCodedWidth := m_maxCodedWidth s.1;
                   m_videoCommandPool := m_videoCommandPool s.1;
                   m_commandBuffers := v;
                   m_bitstreamBuffersQueue := m_bitstreamBuffersQueue s.1 |}, s.2)).

Definition set_maxCodedWidth (w : Z) : M St unit :=
  modify (λ s, ({| m_vkDevCtx := m_vkDevCtx s.1;
                   m_maxCodedWidth := w;
                   m_videoCommandPool := m_videoCommandPool s.1;
                   m_commandBuffers := m_commandBuffers s.1;
                   m_bitstreamBuffersQueue := m_bitstreamBuffersQueue s.1 |}, s.2)).

Definition fprintf_stderr (fmt : string) (arg : Z) : M St unit :=
  modify (λ s, (s.1, {| device := device s.2;
                        calls := calls s.2;
                        stderr := stderr s.2 ++ [(fmt, arg)] |})).

(** Device calls, logged. *)

Definition dev_GetVideoDecodeQueueFamilyIdx : M St Z :=
  gets (λ s, GetVideoDecodeQueueFamilyIdx (device s.2)).

Definition dev_CreateCommandPool (info : VkCommandPoolCreateInfo)
  : M St (VkResult * VkCommandPool) :=
  λ s, let '(r, p, d) := CreateCommandPool (device s.2) info in
       Ret (r, p) (s.1, {| device := d;
                           calls := calls s.2 ++ [CallCreateCommandPool info r p];
                           stderr := stderr s.2 |}).

Definition dev_AllocateCommandBuffers (info : VkCommandBufferAllocateInfo)
    (firstSlot : Z) : M St (VkResult * list VkCommandBuffer) :=
  λ s, let '(r, hs, d) := AllocateCommandBuffers (device s.2) info in
       Ret (r, hs) (s.1, {| device := d;
                            calls := calls s.2 ++ [CallAllocateCommandBuffers info firstSlot r];
                            stderr := stderr s.2 |}).

Definition dev_FreeCommandBuffers (pool : VkCommandPool) (count : Z)
    (bufs : list VkCommandBuffer) : M St unit :=
  modify (λ s, (s.1, {| device := FreeCommandBuffers (device s.2) pool count bufs;
                        calls := calls s.2 ++ [CallFreeCommandBuffers pool count bufs];
                        stderr := stderr s.2 |})).

Definition dev_DestroyCommandPool (pool : VkCommandPool) : M St unit :=
  modify (λ s, (s.1, {| device := DestroyCommandPool (device s.2) pool;
                        calls := calls s.2 ++ [CallDestroyCommandPool pool];
                        stderr := stderr s.2 |})).

(** [NvVkDecodeFrameData(vkDevCtx)] *)
Definition construct (vkDevCtx : bool) : NvVkDecodeFrameData :=
  {| m_vkDevCtx := vkDevCtx;
     m_maxCodedWidth := 0;
     m_videoCommandPool := VK_NULL_HANDLE;
     m_commandBuffers := [];
     m_bitstreamBuffersQueue := VulkanBitstreamBufferPool |}.

(** [void deinit()] *)
Definition deinit : M St unit :=
  (let* pool := gets (λ s, m_videoCommandPool s.1) in
   when (negb (pool =? VK_NULL_HANDLE))
     (let* ctx := gets (λ s, m_vkDevCtx s.1) in
      assert ctx ;;;
      let* bufs := gets (λ s, m_commandBuffers s.1) in
      dev_FreeCommandBuffers pool (uint32_t_of (vector_size bufs)) bufs ;;;
      dev_DestroyCommandPool pool ;;;
      set_pool VK_NULL_HANDLE))%M.

(** [~NvVkDecodeFrameData()] *)
Definition destructor : M St unit := deinit.

(** [size_t resize(maxDecodeFramesCount, maxCodedWidth, maxCodedHeight,
    chromaSubsampling, minBitstreamBufferOffsetAlignment,
    minBitstreamBufferSizeAlignment)] *)
Definition resize (maxDecodeFramesCount : Z)
    (maxCodedWidth maxCodedHeight : Z) (chromaSubsampling : Z)
    (minBitstreamBufferOffsetAlignment minBitstreamBufferSizeAlignment : Z)
  : M St Z :=
  (let* ctx := gets (λ s, m_vkDevCtx s.1) in
   assert ctx ;;;
   let* pool := gets (λ s, m_videoCommandPool s.1) in
   when (pool =? VK_NULL_HANDLE)
     (let* qfi := dev_GetVideoDecodeQueueFamilyIdx in
      let cmdPoolInfo :=
        {| cpci_sType := VK_STRUCTURE_TYPE_COMMAND_POOL_CREATE_INFO;
           cpci_flags := VK_COMMAND_POOL_CREATE_RESET_COMMAND_BUFFER_BIT;
           cpci_queueFamilyIndex := uint32_t_of qfi |} in
      let* rp := dev_CreateCommandPool cmdPoolInfo in
      set_pool rp.2 ;;;
      assert (rp.1 =? VK_SUCCESS) ;;;
      when (negb (rp.1 =? VK_SUCCESS))
        (fprintf_stderr "\nERROR: CreateCommandPool() result: 0x%x\n" rp.1)) ;;;
   let* oldCommandBuffersCount := gets (λ s, vector_size (m_commandBuffers s.1)) in
   let* pool := gets (λ s, m_videoCommandPool s.1) in
   let cmdInfo :=
     {| cbai_sType := VK_STRUCTURE_TYPE_COMMAND_BUFFER_ALLOCATE_INFO;
        cbai_commandPool := pool;
        cbai_level := VK_COMMAND_BUFFER_LEVEL_PRIMARY;
        cbai_commandBufferCount :=
          uint32_t_of (size_t_of (maxDecodeFramesCount - oldCommandBuffersCount)) |} in
   let* bufs := gets (λ s, m_commandBuffers s.1) in
   set_buffers (vector_resize maxDecodeFramesCount bufs) ;;;
   let* rh := dev_AllocateCommandBuffers cmdInfo oldCommandBuffersCount in
   let* bufs := gets (λ s, m_commandBuffers s.1) in
   set_buffers (vector_store oldCommandBuffersCount rh.2 bufs) ;;;
   assert (rh.1 =? VK_SUCCESS) ;;;
   when (negb (rh.1 =? VK_SUCCESS))
     (fprintf_stderr "\nERROR: AllocateCommandBuffers() result: 0x%x\n" rh.1) ;;;
   set_maxCodedWidth (uint32_t_of maxCodedWidth) ;;;
   ret oldCommandBuffersCount)%M.

(** What a client may do to a table, and a sequence of such calls run in
    order (the run stops where an assertion fails). *)
Inductive Call :=
| CallResize (maxDecodeFramesCount maxCodedWidth maxCodedHeight
              chromaSubsampling minBitstreamBufferOffsetAlignment
              minBitstreamBufferSizeAlignment : Z)
| CallDeinit.

Definition call (c : Call) : M St unit :=
  match c with
  | CallResize n w h chroma a1 a2 => (resize n w h chroma a1 a2 ;;; ret tt)%M
  | CallDeinit => deinit
  end.

Fixpoint call_all (cs : list Call) : M St unit :=
  match cs with
  | [] => ret tt
  | c :: cs' => (call c ;;; call_all cs')%M
  end.

End with_device.

(** [VkCommandBuffer GetCommandBuffer(uint32_t slot)] *)
Definition GetCommandBuffer (slot : Z) : M NvVkDecodeFrameData VkCommandBuffer :=
  (let* bufs := gets m_commandBuffers in
   assert (bool_decide (slot < vector_size bufs)) ;;;
   ret (default VK_NULL_HANDLE (bufs !! Z.to_nat slot)))%M.

(** [VulkanBitstreamBufferPool& GetBitstreamBuffersQueue()] *)
Definition GetBitstreamBuffersQueue (this : NvVkDecodeFrameData) : Pool.Pool :=
  m_bitstreamBuffersQueue this.

(** [size_t size()] *)
Definition size (this : NvVkDecodeFrameData) : Z :=
  vector_size (m_commandBuffers this).

End FrameData.

(** ** [class VkVideoDecoder]: the members [GetCurrentFrameData] rests on.
    The parameter-set members ([m_lastIdInQueue], [m_pictureParametersQueue],
    [m_lastPictParamsQueue], [m_currentPictureParameters]) are the state of
    [ParameterSetCache] below. *)

Record VkVideoDecoder := {
  m_maxDecodeFramesCount : Z;
  m_decodeFramesData : NvVkDecodeFrameData;
  m_decodePicCount : Z
}.

Module Decoder.

Definition set_decodeFramesData (f : NvVkDecodeFrameData) (d : VkVideoDecoder)
  : VkVideoDecoder :=
  {| m_maxDecodeFramesCount := m_maxDecodeFramesCount d;
     m_decodeFramesData := f;
     m_decodePicCount := m_decodePicCount d |}.

(** The member initialisers of the constructor. *)
Definition construct (vkDevCtx : bool) : VkVideoDecoder :=
  {| m_maxDecodeFramesCount := 0;
     m_decodeFramesData := FrameData.construct vkDevCtx;
     m_decodePicCount := 0 |}.

(** [int32_t GetCurrentFrameData(uint32_t slotId,
                                 NvVkDecodeFrameDataSlot& frameDataSlot)];
    the second component of the result is [frameDataSlot] after the call. *)
Definition GetCurrentFrameData (slotId : Z) (frameDataSlot : NvVkDecodeFrameDataSlot)
  : M VkVideoDecoder (Z * NvVkDecodeFrameDataSlot) :=
  (let* n := gets (λ d, FrameData.size (m_decodeFramesData d)) in
   if bool_decide (slotId < n) then
     let* cb := zoom m_decodeFramesData set_decodeFramesData
                  (FrameData.GetCommandBuffer slotId) in
     let frameDataSlot1 :=
       {| slot := slot frameDataSlot; commandBuffer := cb |} in
     let frameDataSlot2 :=
       {| slot := slotId; commandBuffer := commandBuffer frameDataSlot1 |} in
     ret (int32_t_of slotId, frameDataSlot2)
   else ret (-1, frameDataSlot))%M.

End Decoder.

(** ** A driver to run the embedding on

    Hands out fresh handles and accounts for a budget of command buffers:
    an allocation that exceeds what is left fails with
    [VK_ERROR_OUT_OF_DEVICE_MEMORY] and stores nothing. *)

Record TestDriver := {
  next_handle : Z;
  budget : Z
}.

#[export] Instance TestDevice : VulkanDeviceContext TestDriver := {|
  GetVideoDecodeQueueFamilyIdx := λ _, 3;
  CreateCommandPool := λ d _,
    (VK_SUCCESS, next_handle d,
     {| next_handle := next_handle d + 1; budget := budget d |});
  AllocateCommandBuffers := λ d info,
    let n := cbai_commandBufferCount info in
    if bool_decide (n ≤ budget d) then
      (VK_SUCCESS, seqZ (next_handle d) n,
       {| next_handle := next_handle d + n; budget := budget d - n |})
    else (VK_ERROR_OUT_OF_DEVICE_MEMORY, [], d);
  FreeCommandBuffers := λ d _ n _,
    {| next_handle := next_handle d; budget := budget d + n |};
  DestroyCommandPool := λ d _, d
|}.

Definition test_world : World TestDriver :=
  {| device := {| next_handle := 100; budget := 64 |};
     calls := [];
     stderr := [] |}.

(** [resize] with the arguments that do not matter here fixed. *)
Definition resize_to {D} `{!VulkanDeviceContext D} (n : Z)
  : M (NvVkDecodeFrameData * World D) Z :=
  FrameData.resize n 1920 1080 2 256 256.

(** ** [namespace simplelogger] ([Logger.h]) *)

Module simplelogger.

(** [enum LogLevel { TRACE, INFO, WARNING, ERROR, FATAL }]; a [LogLevel]
    object can hold other integers (through a cast), which [GetLead]
    guards against, so levels are integers here. *)
Abbreviation LogLevel := Z (only parsing).
Definition TRACE : LogLevel := 0.
Definition INFO : LogLevel := 1.
Definition WARNING : LogLevel := 2.
Definition ERROR : LogLevel := 3.
Definition FATAL : LogLevel := 4.

(** The two classes derived from [Logger] differ in [GetStream()]. *)
Inductive LoggerKind :=
| FileLogger (strFilePath : string)
| ConsoleLogger.

(** [class Logger]; [m_mtx] is [true] while the mutex is held. *)
Record Logger := {
  m_level : LogLevel;
  m_szLead : string;
  m_bPrintTimeStamp : bool;
  m_mtx : bool;
  kind : LoggerKind
}.

(** [struct tm], as far as [GetLead] reads it. *)
Record tm := {
  tm_hour : Z;
  tm_min : Z;
  tm_sec : Z
}.

(** The process as the logger sees it: the global [logger] pointer with
    the object it points to ([None] when null), [std::cout], the file
    behind a [FileLogger], and the local time. *)
Record Process := {
  logger : option Logger;
  cout : string;
  fileOut : string;
  localtime : tm
}.

Definition set_logger (l : option Logger) (p : Process) : Process :=
  {| logger := l; cout := cout p; fileOut := fileOut p;
     localtime := localtime p |}.

(** [os << str] on [std::cout] and on the file stream. *)
Definition write_cout (str : string) (p : Process) : Process :=
  {| logger := logger p; cout := cout p +:+ str; fileOut := fileOut p;
     localtime := localtime p |}.

Definition write_file (str : string) (p : Process) : Process :=
  {| logger := logger p; cout := cout p; fileOut := fileOut p +:+ str;
     localtime := localtime p |}.

(** [LoggerFactory::CreateFileLogger] and [CreateConsoleLogger], defaults
    included through [option]. *)
Definition CreateFileLogger (strFilePath : string) (level : option LogLevel)
    (bPrintTimeStamp : option bool) : Logger :=
  {| m_level := default ERROR level;
     m_szLead := EmptyString;
     m_bPrintTimeStamp := default true bPrintTimeStamp;
     m_mtx := false;
     kind := FileLogger strFilePath |}.

Definition CreateConsoleLogger (level : option LogLevel)
    (bPrintTimeStamp : option bool) : Logger :=
  {| m_level := default ERROR level;
     m_szLead := EmptyString;
     m_bPrintTimeStamp := default true bPrintTimeStamp;
     m_mtx := false;
     kind := ConsoleLogger |}.

(** [bool ShouldLogFor(LogLevel l)] *)
Definition ShouldLogFor (lg : Logger) (l : LogLevel) : bool :=
  bool_decide (m_level lg ≤ l).

(** [szLevels[l]] *)
Definition szLevels (l : LogLevel) : string :=
  if l =? 0 then "TRACE" else
  if l =? 1 then "INFO" else
  if l =? 2 then "WARN" else
  if l =? 3 then "ERROR" else "FATAL".

(** ["%-5s"]: left-justified in a field of five. *)
Definition pad5 (s : string) : string :=
  s +:+ String.concat EmptyString (replicate (5 - String.length s)%nat " ").

(** ["%02d"] *)
Definition fmt02d (n : Z) : string :=
  if bool_decide (0 ≤ n < 10) then "0" +:+ pretty n else pretty n.

(** [GetLead(l, szFile, nLine, szFunc)]: the text left in [m_szLead]
    (the last three arguments are unnamed and unused). *)
Definition GetLead (lg : Logger) (now : tm) (l : LogLevel) : string :=
  if bool_decide (l < TRACE ∨ l > FATAL) then "[?????] "
  else if m_bPrintTimeStamp lg then
    "[" +:+ pad5 (szLevels l) +:+ "][" +:+ fmt02d (tm_hour now) +:+ ":"
        +:+ fmt02d (tm_min now) +:+ ":" +:+ fmt02d (tm_sec now) +:+ "] "
  else "[" +:+ pad5 (szLevels l) +:+ "] ".

Definition set_lead (lead : string) (lg : Logger) : Logger :=
  {| m_level := m_level lg; m_szLead := lead;
     m_bPrintTimeStamp := m_bPrintTimeStamp lg; m_mtx := m_mtx lg;
     kind := kind lg |}.

Definition set_mtx (b : bool) (lg : Logger) : Logger :=
  {| m_level := m_level lg; m_szLead := m_szLead lg;
     m_bPrintTimeStamp := m_bPrintTimeStamp lg; m_mtx := b;
     kind := kind lg |}.

(** [pLogger->GetStream() << str] *)
Definition write_logger (lg : Logger) (str : string) : M Process unit :=
  match kind lg with
  | ConsoleLogger => modify (write_cout str)
  | FileLogger _ => modify (write_file str)
  end.

(** [std::endl] writes a newline (and flushes). *)
Definition endl : string := String (Ascii.ascii_of_nat 10) EmptyString.

(** [class LogTransaction]: [m_pLogger] is the pointer it was given
    ([true] when non-null: there is one logger object, the one [logger]
    points to), [ossNull] the stream that swallows suppressed text. *)
Record LogTransaction := {
  m_pLogger : bool;
  lt_level : LogLevel;
  ossNull : string
}.

(** The constructor. *)
Definition LogTransaction_ctor (level : LogLevel) : M Process LogTransaction :=
  (let* pLogger := gets logger in
   let t := {| m_pLogger := bool_decide (is_Some pLogger);
               lt_level := level; ossNull := EmptyString |} in
   match pLogger with
   | None => modify (write_cout "[-----] ") ;;; ret t
   | Some lg =>
       if negb (ShouldLogFor lg level) then ret t
       else
         let* now := gets localtime in
         let lg1 := set_mtx true lg in
         let lg2 := set_lead (GetLead lg1 now level) lg1 in
         modify (set_logger (Some lg2)) ;;;
         write_logger lg2 (m_szLead lg2) ;;;
         ret t
   end)%M.

(** [GetStream() << str] *)
Definition LogTransaction_write (str : string) (t : LogTransaction)
  : M Process LogTransaction :=
  (let* pLogger := gets logger in
   match pLogger with
   | None => modify (write_cout str) ;;; ret t
   | Some lg =>
       if negb (ShouldLogFor lg (lt_level t)) then
         ret {| m_pLogger := m_pLogger t; lt_level := lt_level t;
                ossNull := ossNull t +:+ str |}
       else write_logger lg str ;;; ret t
   end)%M.

(** The destructor. *)
Definition LogTransaction_dtor (t : LogTransaction) : M Process unit :=
  (let* pLogger := gets logger in
   match pLogger with
   | None => modify (write_cout endl)
   | Some lg =>
       if negb (ShouldLogFor lg (lt_level t)) then ret tt
       else
         write_logger lg endl ;;;
         modify (set_logger (Some (set_mtx false lg))) ;;;
         if lt_level t =? FATAL then exit 1 else ret tt
   end)%M.

(** The statement [LOG(level) << str;]: the temporary is constructed,
    written to, and destroyed at the end of the full expression. *)
Definition LOG (level : LogLevel) (str : string) : M Process unit :=
  (let* t := LogTransaction_ctor level in
   let* t' := LogTransaction_write str t in
   LogTransaction_dtor t')%M.

End simplelogger.

(** ** The parameter-set cache

    [VkVideoDecoder.h] declares [AddPictureParametersToQueue],
    [FlushPictureParametersQueue], [CheckStdObjectBeforeUpdate] and
    [CheckStdObjectAfterUpdate] and the members they work on; their bodies
    are in [VkVideoDecoder.cpp].  From the header come the three-entry
    arrays indexed by parameter-set type and the initial value -1 of every
    [m_lastIdInQueue] entry. *)

Module ParameterSetCache.

(** Modelled from the spec: the parameter-set kinds of
    [StdVideoPictureParametersSet], "VPS-like, SPS-like, PPS-like". *)
Inductive ParameterSetType := VPS | SPS | PPS.

#[export] Instance ParameterSetType_eq_dec : EqDecision ParameterSetType.
Proof. solve_decision. Defined.

(** An array indexed by [ParameterSetType]
    ([T a[StdVideoPictureParametersSet::NUM_OF_TYPES]]). *)
Record PerType (A : Type) := {
  at_vps : A;
  at_sps : A;
  at_pps : A
}.
Arguments at_vps {A} _.
Arguments at_sps {A} _.
Arguments at_pps {A} _.

Definition pt_get {A} (t : ParameterSetType) (a : PerType A) : A :=
  match t with VPS => at_vps a | SPS => at_sps a | PPS => at_pps a end.

Definition pt_set {A} (t : ParameterSetType) (x : A) (a : PerType A) : PerType A :=
  match t with
  | VPS => {| at_vps := x; at_sps := at_sps a; at_pps := at_pps a |}
  | SPS => {| at_vps := at_vps a; at_sps := x; at_pps := at_pps a |}
  | PPS => {| at_vps := at_vps a; at_sps := at_sps a; at_pps := x |}
  end.

Definition pt_all {A} (x : A) : PerType A :=
  {| at_vps := x; at_sps := x; at_pps := x |}.

(** Modelled from the spec: a [ParameterSet] of the data model, "type, id
    and implicit arrival order".  [ps_parent] is the id of the parent set
    it refers to (the VPS of an SPS, the SPS of a PPS; unused for a VPS),
    and [ps_instance] tells two instances with the same (type, id) apart. *)
Record ParameterSet := {
  ps_type : ParameterSetType;
  ps_id : Z;
  ps_parent : Z;
  ps_instance : nat
}.

#[export] Instance ParameterSet_eq_dec : EqDecision ParameterSet.
Proof. solve_decision. Defined.

(** Modelled from the spec: a [ParameterSetQueueEntry], a pending set
    "tagged with the monotonically increasing updateSequenceCount". *)
Record ParameterSetQueueEntry := {
  qe_set : ParameterSet;
  qe_updateSequenceCount : Z
}.

(** Modelled from the spec: an [ActiveParametersObject], "a composite,
    immutable-once-built object referencing the currently-applied
    parameter set per type", refcounted. *)
Record ActiveParametersObject := {
  ap_sets : PerType ParameterSet;
  ap_builtAt : Z;
  ap_refcount : nat
}.

(** Modelled from the spec: the state of section 4.4 ("a single FIFO
    queue of pending entries; per type, the id of the most recently queued
    instance; per type, the most recently applied instance; and the
    current ActiveParametersObject"), with the objects in a store keyed by
    handle and the handles the in-flight decode requests captured. *)
Record Cache := {
  queue : list ParameterSetQueueEntry;
  lastIdInQueue : PerType Z;
  lastQueuedSet : PerType (option ParameterSet);
  lastAppliedSet : PerType (option ParameterSet);
  current : option nat;
  store : gmap nat ActiveParametersObject;
  next_object : nat;
  requests : gmap nat nat
}.

(** [m_lastIdInQueue{-1, -1, -1}] and empty everything else. *)
Definition empty : Cache :=
  {| queue := [];
     lastIdInQueue := pt_all (-1);
     lastQueuedSet := pt_all None;
     lastAppliedSet := pt_all None;
     current := None;
     store := ∅;
     next_object := 0;
     requests := ∅ |}.

(** Modelled from the spec: what adding a set yields: the set as
    enqueued, the object already queued or applied, or a rejection. *)
Inductive AddResult :=
| Enqueued (ps : ParameterSet)
| AlreadySeen (obj : option ParameterSet)
| Rejected.

(** Modelled from the spec: [addPictureParameters], the missing body of
    [AddPictureParametersToQueue]: "if the incoming set's id is identical
    to the most recently queued one of that type, it is treated as
    already-seen and returns the already-queued/applied object rather than
    enqueuing a duplicate.  Otherwise appends to the queue and updates
    lastIdInQueue[type]". *)
Definition addPictureParameters (ps : ParameterSet) (updateSequenceCount : Z)
    (c : Cache) : AddResult * Cache :=
  if ps_id ps =? pt_get (ps_type ps) (lastIdInQueue c) then
    (AlreadySeen (pt_get (ps_type ps) (lastQueuedSet c)), c)
  else
    (Enqueued ps,
     {| queue := queue c ++ [{| qe_set := ps;
                               qe_updateSequenceCount := updateSequenceCount |}];
        lastIdInQueue := pt_set (ps_type ps) (ps_id ps) (lastIdInQueue c);
        lastQueuedSet := pt_set (ps_type ps) (Some ps) (lastQueuedSet c);
        lastAppliedSet := lastAppliedSet c;
        current := current c;
        store := store c;
        next_object := next_object c;
        requests := requests c |}).

(** Modelled from the spec: the type of the parent a set refers to
    ("the PPS-equivalent's parent SPS-equivalent id"). *)
Definition parent_type (t : ParameterSetType) : option ParameterSetType :=
  match t with VPS => None | SPS => Some VPS | PPS => Some SPS end.

(** Modelled from the spec: a parent id is known when a set of that type
    and id is pending or applied. *)
Definition known (c : Cache) (t : ParameterSetType) (id : Z) : bool :=
  existsb (λ e, bool_decide (ps_type (qe_set e) = t) && (ps_id (qe_set e) =? id))
          (queue c)
  || match pt_get t (lastAppliedSet c) with
     | Some p => ps_id p =? id
     | None => false
     end.

(** Modelled from the spec: ids are small non-negative integers (-1 is
    what [m_lastIdInQueue] holds while nothing was queued). *)
Definition well_formed (ps : ParameterSet) : bool :=
  bool_decide (0 ≤ ps_id ps).

(** Modelled from the spec: the set does not refer to "an unknown parent
    id". *)
Definition parent_known (c : Cache) (ps : ParameterSet) : bool :=
  match parent_type (ps_type ps) with
  | None => true
  | Some t => known c t (ps_parent ps)
  end.

Section with_collision_policy.

(** The spec leaves open when an id "collides with an id currently in use
    by a different, still-referenced ActiveParametersObject in a way that
    would corrupt an in-flight decode": the cache is parametric in it. *)
Variable collides : Cache → ParameterSet → bool.

(** Modelled from the spec: [checkBeforeUpdate], the missing body of
    [CheckStdObjectBeforeUpdate]: rejects an id collision and "sets that
    fail structural validation (e.g., malformed or referencing an unknown
    parent id)". *)
Definition checkBeforeUpdate (c : Cache) (ps : ParameterSet) : bool :=
  well_formed ps && parent_known c ps && negb (collides c ps).

(** Modelled from the spec: [onParametersUpdate] of the orchestrator,
    which validates and then adds; a rejected set is not enqueued. *)
Definition onParametersUpdate (ps : ParameterSet) (updateSequenceCount : Z)
    (c : Cache) : AddResult * Cache :=
  if checkBeforeUpdate c ps then addPictureParameters ps updateSequenceCount c
  else (Rejected, c).

End with_collision_policy.

(** Modelled from the spec: "all three constituent types are present and
    consistent": the three sets are of the three types, and each refers
    to the parent that was selected. *)
Definition consistent (sets : PerType ParameterSet) : bool :=
  bool_decide (ps_type (at_vps sets) = VPS)
  && bool_decide (ps_type (at_sps sets) = SPS)
  && bool_decide (ps_type (at_pps sets) = PPS)
  && (ps_parent (at_sps sets) =? ps_id (at_vps sets))
  && (ps_parent (at_pps sets) =? ps_id (at_sps sets)).

(** Modelled from the spec: [checkAfterUpdate], the missing body of
    [CheckStdObjectAfterUpdate]: "verifies all three constituent types are
    present and consistent (e.g., the PPS-equivalent's parent
    SPS-equivalent id matches the SPS-equivalent actually selected)". *)
Definition checkAfterUpdate (ps : ParameterSet) (o : ActiveParametersObject) : bool :=
  consistent (ap_sets o)
  && bool_decide (pt_get (ps_type ps) (ap_sets o) = ps).

(** Modelled from the spec: [Release] on the object behind a handle: the
    count drops, and the object is destroyed when nobody holds it any
    more ("it is not destroyed while referenced"). *)
Definition release_object (h : nat) (st : gmap nat ActiveParametersObject)
  : gmap nat ActiveParametersObject :=
  match st !! h with
  | Some o =>
      if bool_decide (ap_refcount o ≤ 1)%nat then delete h st
      else <[h := {| ap_sets := ap_sets o; ap_builtAt := ap_builtAt o;
                     ap_refcount := pred (ap_refcount o) |}]> st
  | None => st
  end.

(** Modelled from the spec: [AddRef] on the object behind a handle. *)
Definition acquire_object (h : nat) (st : gmap nat ActiveParametersObject)
  : gmap nat ActiveParametersObject :=
  match st !! h with
  | Some o => <[h := {| ap_sets := ap_sets o; ap_builtAt := ap_builtAt o;
                        ap_refcount := S (ap_refcount o) |}]> st
  | None => st
  end.

Definition set_applied (ps : ParameterSet) (c : Cache) : Cache :=
  {| queue := queue c;
     lastIdInQueue := lastIdInQueue c;
     lastQueuedSet := lastQueuedSet c;
     lastAppliedSet := pt_set (ps_type ps) (Some ps) (lastAppliedSet c);
     current := current c;
     store := store c;
     next_object := next_object c;
     requests := requests c |}.

(** Modelled from the spec: the composite the applied sets give,
    "whenever all three types have at least one applied set". *)
Definition candidate (builtAt : Z) (c : Cache) : option ActiveParametersObject :=
  match at_vps (lastAppliedSet c), at_sps (lastAppliedSet c),
        at_pps (lastAppliedSet c) with
  | Some v, Some s, Some p =>
      Some {| ap_sets := {| at_vps := v; at_sps := s; at_pps := p |};
              ap_builtAt := builtAt;
              ap_refcount := 1 |}
  | _, _, _ => None
  end.

(** Modelled from the spec: the new object becomes current, "replacing
    the previous one"; the cache gives up its reference to the one it
    replaces. *)
Definition install (o : ActiveParametersObject) (c : Cache) : Cache :=
  {| queue := queue c;
     lastIdInQueue := lastIdInQueue c;
     lastQueuedSet := lastQueuedSet c;
     lastAppliedSet := lastAppliedSet c;
     current := Some (next_object c);
     store := <[next_object c := o]>
                (match current c with
                 | Some h => release_object h (store c)
                 | None => store c
                 end);
     next_object := S (next_object c);
     requests := requests c |}.

(** Modelled from the spec: one entry of the flush, which "updates
    lastAppliedSet[type]; whenever all three types have at least one
    applied set, (re)builds the composite", which [checkAfterUpdate] may
    discard. *)
Definition flush_entry (c : Cache) (e : ParameterSetQueueEntry) : Cache :=
  let c1 := set_applied (qe_set e) c in
  match candidate (qe_updateSequenceCount e) c1 with
  | Some o => if checkAfterUpdate (qe_set e) o then install o c1 else c1
  | None => c1
  end.

Definition set_queue (q : list ParameterSetQueueEntry) (c : Cache) : Cache :=
  {| queue := q;
     lastIdInQueue := lastIdInQueue c;
     lastQueuedSet := lastQueuedSet c;
     lastAppliedSet := lastAppliedSet c;
     current := current c;
     store := store c;
     next_object := next_object c;
     requests := requests c |}.

(** Modelled from the spec: [flushQueue], the missing body of
    [FlushPictureParametersQueue]: "dequeues entries in arrival order and,
    for each, updates lastAppliedSet[type] ...  Returns the count of
    entries flushed". *)
Definition flushQueue (c : Cache) : nat * Cache :=
  (length (queue c), set_queue [] (foldl flush_entry c (queue c))).

(** Modelled from the spec: [getCurrentParameters], "the object valid
    right now". *)
Definition getCurrentParameters (c : Cache) : option nat := current c.

(** Modelled from the spec: the construction of a [DecodeRequest], which
    "captures this handle (acquiring a reference) at the moment it is
    constructed". *)
Definition decodePicture (request : nat) (c : Cache) : Cache :=
  match getCurrentParameters c, requests c !! request with
  | Some h, None =>
      {| queue := queue c;
         lastIdInQueue := lastIdInQueue c;
         lastQueuedSet := lastQueuedSet c;
         lastAppliedSet := lastAppliedSet c;
         current := current c;
         store := acquire_object h (store c);
         next_object := next_object c;
         requests := <[request := h]> (requests c) |}
  | _, _ => c
  end.

(** Modelled from the spec: completion of a request, which "releases the
    ActiveParametersObject reference held by that request". *)
Definition retirePicture (request : nat) (c : Cache) : Cache :=
  match requests c !! request with
  | Some h =>
      {| queue := queue c;
         lastIdInQueue := lastIdInQueue c;
         lastQueuedSet := lastQueuedSet c;
         lastAppliedSet := lastAppliedSet c;
         current := current c;
         store := release_object h (store c);
         next_object := next_object c;
         requests := delete request (requests c) |}
  | None => c
  end.

(** Modelled from the spec: what the orchestrator does to the cache, one
    step at a time. *)
Inductive CacheOp :=
| OpAdd (ps : ParameterSet) (updateSequenceCount : Z)
| OpUpdate (ps : ParameterSet) (updateSequenceCount : Z)
| OpFlush
| OpDecode (request : nat)
| OpRetire (request : nat).

Section run.
Variable collides : Cache → ParameterSet → bool.

Definition step (c : Cache) (op : CacheOp) : Cache :=
  match op with
  | OpAdd ps n => (addPictureParameters ps n c).2
  | OpUpdate ps n => (onParametersUpdate collides ps n c).2
  | OpFlush => (flushQueue c).2
  | OpDecode r => decodePicture r c
  | OpRetire r => retirePicture r c
  end.

Definition run (ops : list CacheOp) (c : Cache) : Cache := foldl step c ops.

End run.

(** No collision is ever reported. *)
Definition no_collision : Cache → ParameterSet → bool := λ _ _, false.

(** What a handle shows: the three sets of the object behind it. *)
Definition inspect (c : Cache) (h : nat) : option (PerType ParameterSet) :=
  ap_sets <$> store c !! h.

(** The ids pending in the queue for one type, in arrival order. *)
Definition pending_ids (t : ParameterSetType) (c : Cache) : list Z :=
  ps_id <$> filter (λ p, ps_type p = t) (qe_set <$> queue c).

(** No two neighbours of a list are equal. *)
Fixpoint adjacent_distinct (l : list Z) : bool :=
  match l with
  | x :: ((y :: _) as tl) => negb (x =? y) && adjacent_distinct tl
  | _ => true
  end.

End ParameterSetCache.

(** ** [VkVideoDecoder::VkVideoDecoder]: the default queue index *)

(** The body of the constructor settles [m_defaultVideoQueueIndx] from its
    argument [videoQueueIndx] (an [int32_t]) and three getters of the
    device context, which are taken here as the values they return:
    [GetVideoDecodeQueueFamilyIdx()], [GetVideoDecodeNumQueues()] and
    [GetVideoDecodeDefaultQueueIndex()].  [%] on [int] truncates towards
    zero ([Z.rem]).  The result is the value of the member after
    construction. *)
Definition construct_defaultVideoQueueIndx (videoQueueIndx : Z)
    (queueFamilyIdx numQueues defaultQueueIndex : Z) : M unit Z :=
  (assert (negb (queueFamilyIdx =? -1)) ;;;
   assert (0 <? numQueues) ;;;
   if videoQueueIndx <? 0 then ret defaultQueueIndex
   else if 1 <? numQueues then
     let m_defaultVideoQueueIndx := Z.rem videoQueueIndx numQueues in
     assert (m_defaultVideoQueueIndx <? numQueues) ;;;
     assert (0 <=? m_defaultVideoQueueIndx) ;;;
     ret m_defaultVideoQueueIndx
   else ret 0)%M.

(** * Inputs and invariants the properties are stated on *)

(** ** Frame slot table *)

(** The two structures [resize] fills in. *)
Definition cmdPoolInfo_of (queueFamilyIdx : Z) : VkCommandPoolCreateInfo :=
  {| cpci_sType := VK_STRUCTURE_TYPE_COMMAND_POOL_CREATE_INFO;
     cpci_flags := VK_COMMAND_POOL_CREATE_RESET_COMMAND_BUFFER_BIT;
     cpci_queueFamilyIndex := uint32_t_of queueFamilyIdx |}.

Definition cmdInfo_of (pool : VkCommandPool) (count : Z)
  : VkCommandBufferAllocateInfo :=
  {| cbai_sType := VK_STRUCTURE_TYPE_COMMAND_BUFFER_ALLOCATE_INFO;
     cbai_commandPool := pool;
     cbai_level := VK_COMMAND_BUFFER_LEVEL_PRIMARY;
     cbai_commandBufferCount := count |}.

(** A table that has a pool has a device context. *)
Definition pool_needs_ctx {D} (s : NvVkDecodeFrameData * World D) : Prop :=
  m_videoCommandPool s.1 ≠ VK_NULL_HANDLE → m_vkDevCtx s.1 = true.

(** Tables of three and of five slots allocated from pool 100, a decoder
    that owns the first, and the calls that produce the second on the
    test driver. *)
Definition table3 : NvVkDecodeFrameData :=
  {| m_vkDevCtx := true; m_maxCodedWidth := 1920;
     m_videoCommandPool := 100; m_commandBuffers := [101; 102; 103];
     m_bitstreamBuffersQueue := VulkanBitstreamBufferPool |}.

Definition table5 : NvVkDecodeFrameData :=
  {| m_vkDevCtx := true; m_maxCodedWidth := 1920;
     m_videoCommandPool := 100;
     m_commandBuffers := [101; 102; 103; 104; 105];
     m_bitstreamBuffersQueue := VulkanBitstreamBufferPool |}.

Definition decoder3 : VkVideoDecoder :=
  Decoder.set_decodeFramesData table3 (Decoder.construct true).

Definition to_table5 : list FrameData.Call :=
  [FrameData.CallResize 5 1920 1080 2 256 256].

(** The same table grown in two steps. *)
Definition grow_to_table5 : list FrameData.Call :=
  [FrameData.CallResize 2 1920 1080 2 256 256;
   FrameData.CallResize 5 1920 1080 2 256 256].

(** A history that only grows the table: [resize] calls whose targets do
    not go down and stay within [uint32_t], starting from [old] slots. *)
Fixpoint grows_from (old : Z) (cs : list FrameData.Call) : bool :=
  match cs with
  | [] => true
  | FrameData.CallResize n _ _ _ _ _ :: cs' =>
      bool_decide (old ≤ n ≤ UINT32_MAX) && grows_from n cs'
  | FrameData.CallDeinit :: _ => false
  end.

(** The slots a log of allocations fills: every call is a successful
    [AllocateCommandBuffers] on [pool] that stores from the slot where the
    call before it stopped, the first one from [first]; the result is the
    slot after the last one filled. *)
Fixpoint fills (pool : VkCommandPool) (first : Z) (log : list DeviceCall)
  : option Z :=
  match log with
  | [] => Some first
  | CallAllocateCommandBuffers info firstSlot result :: log' =>
      if (cbai_commandPool info =? pool) && (firstSlot =? first)
         && (result =? VK_SUCCESS)
      then fills pool (first + cbai_commandBufferCount info) log'
      else None
  | _ => None
  end.

(** A table of 2^31 + 1 slots, and a decoder that owns it. *)
Definition table_huge : NvVkDecodeFrameData :=
  {| m_vkDevCtx := true; m_maxCodedWidth := 1920;
     m_videoCommandPool := 100;
     m_commandBuffers := replicate (Z.to_nat 2147483649) 101;
     m_bitstreamBuffersQueue := VulkanBitstreamBufferPool |}.

Definition decoder_huge : VkVideoDecoder :=
  Decoder.set_decodeFramesData table_huge (Decoder.construct true).

(** ** Pool *)

(** A slot backed on demand for a size hint, as handed out. *)
Definition fresh_slot (sizeHint : Z) : Pool.PoolEntry :=
  {| Pool.capacity := sizeHint; Pool.refcount := 1; Pool.in_use := true |}.

Definition all_in_use (l : list Pool.PoolEntry) : Prop :=
  Forall (λ e, Pool.in_use e = true) l.

(** ** Parameter-set cache *)

(** What the bookkeeping of [addPictureParameters] maintains, per type:
    the last queued set carries the last queued id (which is -1 while
    nothing was queued), no two neighbours among the pending ids are
    equal, and the newest pending id is the last queued id. *)
Definition queue_inv (c : ParameterSetCache.Cache) : Prop :=
  ∀ t,
    match ParameterSetCache.pt_get t (ParameterSetCache.lastQueuedSet c) with
    | Some q => ParameterSetCache.ps_type q = t
                ∧ ParameterSetCache.ps_id q
                  = ParameterSetCache.pt_get t (ParameterSetCache.lastIdInQueue c)
    | None => ParameterSetCache.pt_get t (ParameterSetCache.lastIdInQueue c) = -1
    end
    ∧ ParameterSetCache.adjacent_distinct (ParameterSetCache.pending_ids t c) = true
    ∧ ∀ x, last (ParameterSetCache.pending_ids t c) = Some x →
           x = ParameterSetCache.pt_get t (ParameterSetCache.lastIdInQueue c).

(** The number of in-flight requests that hold handle [h]. *)
Definition holders (h : nat) (reqs : gmap nat nat) : nat :=
  size (filter (λ kv : nat * nat, kv.2 = h) reqs).

(** Reference counting is sound: every object in the store is counted at
    least once per holder (the requests that captured it, and the cache
    while it is current), its handle is below the next one to be issued,
    and whatever a request or the cache points to is in the store. *)
Definition store_inv (c : ParameterSetCache.Cache) : Prop :=
  (∀ h o, ParameterSetCache.store c !! h = Some o →
     (h < ParameterSetCache.next_object c)%nat
     ∧ (holders h (ParameterSetCache.requests c)
        + (if decide (ParameterSetCache.current c = Some h) then 1 else 0)
        ≤ ParameterSetCache.ap_refcount o)%nat)
  ∧ (∀ r h, ParameterSetCache.requests c !! r = Some h →
       is_Some (ParameterSetCache.store c !! h))
  ∧ (∀ h, ParameterSetCache.current c = Some h →
       is_Some (ParameterSetCache.store c !! h)).

(** Two objects show the same parameter sets, built at the same time. *)
Definition same_content (o o' : ParameterSetCache.ActiveParametersObject) : Prop :=
  ParameterSetCache.ap_sets o' = ParameterSetCache.ap_sets o
  ∧ ParameterSetCache.ap_builtAt o' = ParameterSetCache.ap_builtAt o.

(** How a flush relates the cache before and after: either nothing was
    installed, or the current object is a new one that passed the
    consistency check. *)
Definition flushed_from (c c' : ParameterSetCache.Cache) : Prop :=
  (ParameterSetCache.next_object c ≤ ParameterSetCache.next_object c')%nat
  ∧ ((ParameterSetCache.current c' = ParameterSetCache.current c
      ∧ ParameterSetCache.store c' = ParameterSetCache.store c
      ∧ ParameterSetCache.requests c' = ParameterSetCache.requests c)
     ∨ (∃ h o, ParameterSetCache.current c' = Some h
          ∧ (ParameterSetCache.next_object c ≤ h)%nat
          ∧ ParameterSetCache.store c' !! h = Some o
          ∧ ParameterSetCache.consistent (ParameterSetCache.ap_sets o) = true)).

(** The sets of the end-to-end scenario, and a PPS whose parent SPS
    (id 7) nobody has seen. *)
Definition vps1 : ParameterSetCache.ParameterSet :=
  {| ParameterSetCache.ps_type := ParameterSetCache.VPS;
     ParameterSetCache.ps_id := 1; ParameterSetCache.ps_parent := 0;
     ParameterSetCache.ps_instance := 0 |}.

Definition sps1 : ParameterSetCache.ParameterSet :=
  {| ParameterSetCache.ps_type := ParameterSetCache.SPS;
     ParameterSetCache.ps_id := 1; ParameterSetCache.ps_parent := 1;
     ParameterSetCache.ps_instance := 1 |}.

Definition pps1 : ParameterSetCache.ParameterSet :=
  {| ParameterSetCache.ps_type := ParameterSetCache.PPS;
     ParameterSetCache.ps_id := 1; ParameterSetCache.ps_parent := 1;
     ParameterSetCache.ps_instance := 2 |}.

Definition pps2 : ParameterSetCache.ParameterSet :=
  {| ParameterSetCache.ps_type := ParameterSetCache.PPS;
     ParameterSetCache.ps_id := 2; ParameterSetCache.ps_parent := 1;
     ParameterSetCache.ps_instance := 3 |}.

Definition pps_orphan : ParameterSetCache.ParameterSet :=
  {| ParameterSetCache.ps_type := ParameterSetCache.PPS;
     ParameterSetCache.ps_id := 3; ParameterSetCache.ps_parent := 7;
     ParameterSetCache.ps_instance := 4 |}.

Definition sets_of (v s p : ParameterSetCache.ParameterSet)
  : ParameterSetCache.PerType ParameterSetCache.ParameterSet :=
  {| ParameterSetCache.at_vps := v; ParameterSetCache.at_sps := s;
     ParameterSetCache.at_pps := p |}.

(** The scenario up to the first flush: VPS 1, SPS 1 and PPS 1 are
    queued and applied. *)
Definition scenario_start : list ParameterSetCache.CacheOp :=
  [ParameterSetCache.OpUpdate vps1 1; ParameterSetCache.OpUpdate sps1 2;
   ParameterSetCache.OpUpdate pps1 3; ParameterSetCache.OpFlush].

(** After picture 1 was set up: PPS 2 arrives and is applied, and
    picture 2 is set up. *)
Definition scenario_rest : list ParameterSetCache.CacheOp :=
  [ParameterSetCache.OpUpdate pps2 4; ParameterSetCache.OpFlush;
   ParameterSetCache.OpDecode 2].

(** ** Device protocol *)

(** The pool a client of the device holds after a call: the handle the
    last [CreateCommandPool] stored, none after [DestroyCommandPool]. *)
Definition held_after (held : Z) (c : DeviceCall) : Z :=
  match c with
  | CallCreateCommandPool _ _ p => p
  | CallDestroyCommandPool _ => VK_NULL_HANDLE
  | _ => held
  end.

(** A call is in order when it creates a pool while none is held, or
    allocates from the pool held, or frees from or destroys the pool held,
    which then is not null. *)
Definition call_allowed (held : Z) (c : DeviceCall) : bool :=
  match c with
  | CallCreateCommandPool _ _ _ => held =? VK_NULL_HANDLE
  | CallAllocateCommandBuffers info _ _ => cbai_commandPool info =? held
  | CallFreeCommandBuffers p _ _ => (p =? held) && negb (held =? VK_NULL_HANDLE)
  | CallDestroyCommandPool p => (p =? held) && negb (held =? VK_NULL_HANDLE)
  end.

Fixpoint protocol_ok (held : Z) (log : list DeviceCall) : bool :=
  match log with
  | [] => true
  | c :: log' => call_allowed held c && protocol_ok (held_after held c) log'
  end.

Definition pool_held (held : Z) (log : list DeviceCall) : Z :=
  foldl held_after held log.

(** What a call adds to the log is in order for the pool the table holds
    and leaves the table holding the pool the log says. *)
Definition extends_in_order {D} (s s' : NvVkDecodeFrameData * World D) : Prop :=
  ∃ new, calls s'.2 = calls s.2 ++ new
         ∧ protocol_ok (m_videoCommandPool s.1) new = true
         ∧ pool_held (m_videoCommandPool s.1) new = m_videoCommandPool s'.1.

(** What a returning call adds to the log are calls the device answered
    with success, and it leaves [stderr] as it was. *)
Definition extends_quietly {D} (s s' : NvVkDecodeFrameData * World D) : Prop :=
  stderr s'.2 = stderr s.2
  ∧ ∃ new, calls s'.2 = calls s.2 ++ new
           ∧ Forall (λ c, call_result c = VK_SUCCESS) new.

(** ** A driver whose calls all fail *)

(** Every creation and allocation is refused with
    [VK_ERROR_OUT_OF_DEVICE_MEMORY] and stores nothing. *)
#[export] Instance BrokenDevice : VulkanDeviceContext unit := {|
  GetVideoDecodeQueueFamilyIdx := λ _, 3;
  CreateCommandPool := λ d _, (VK_ERROR_OUT_OF_DEVICE_MEMORY, VK_NULL_HANDLE, d);
  AllocateCommandBuffers := λ d _, (VK_ERROR_OUT_OF_DEVICE_MEMORY, [], d);
  FreeCommandBuffers := λ d _ _ _, d;
  DestroyCommandPool := λ d _, d
|}.

Definition broken_world : World unit :=
  {| device := tt; calls := []; stderr := [] |}.

Definition is_deinit (c : FrameData.Call) : bool :=
  match c with FrameData.CallDeinit => true | _ => false end.

(** ** Logger *)

(** [os << str] on the stream of a logger of the given kind. *)
Definition emit (k : simplelogger.LoggerKind) (str : string)
    (p : simplelogger.Process) : simplelogger.Process :=
  match k with
  | simplelogger.ConsoleLogger => simplelogger.write_cout str p
  | simplelogger.FileLogger _ => simplelogger.write_file str p
  end.

(** A local time as [localtime] yields it: every field prints in two
    digits. *)
Definition two_digit_time (now : simplelogger.tm) : Prop :=
  0 ≤ simplelogger.tm_hour now ≤ 99
  ∧ 0 ≤ simplelogger.tm_min now ≤ 99
  ∧ 0 ≤ simplelogger.tm_sec now ≤ 99.

Definition console_process (lg : option simplelogger.Logger)
  : simplelogger.Process :=
  {| simplelogger.logger := lg;
     simplelogger.cout := EmptyString;
     simplelogger.fileOut := EmptyString;
     simplelogger.localtime :=
       {| simplelogger.tm_hour := 9; simplelogger.tm_min := 5;
          simplelogger.tm_sec := 42 |} |}.

(** * Properties *)

Ltac munfold :=
  unfold bind, ret, gets, modify, assert, when, zoom, exit in *.

(** ** Machine integers *)

Lemma uint32_t_of_small (z : Z) : 0 ≤ z ≤ UINT32_MAX → uint32_t_of z = z.
Proof. unfold uint32_t_of, UINT32_MAX. intros. apply Z.mod_small. lia. Qed.

Lemma size_t_of_small (z : Z) : 0 ≤ z < 2 ^ 64 → size_t_of z = z.
Proof. unfold size_t_of. intros. apply Z.mod_small. lia. Qed.

Lemma int32_t_of_small (z : Z) : 0 ≤ z ≤ INT32_MAX → int32_t_of z = z.
Proof.
  unfold int32_t_of, INT32_MAX. intros.
  rewrite Z.mod_small by lia. lia.
Qed.

Lemma vector_size_nonneg v : 0 ≤ vector_size v.
Proof. unfold vector_size. lia. Qed.

Lemma vector_size_resize n v : 0 ≤ n → vector_size (vector_resize n v) = n.
Proof. unfold vector_size, vector_resize. intros. rewrite length_resize. lia. Qed.

Lemma vector_size_store first hs v :
  vector_size (vector_store first hs v) = vector_size v.
Proof. unfold vector_size, vector_store. by rewrite length_inserts. Qed.

(** ** The frame slot table *)

Lemma GetCommandBuffer_in_range (this : NvVkDecodeFrameData) (slot : Z) :
  0 ≤ slot < FrameData.size this →
  ∃ cb, m_commandBuffers this !! Z.to_nat slot = Some cb
        ∧ FrameData.GetCommandBuffer slot this = Ret cb this.
Proof.
  unfold FrameData.GetCommandBuffer, FrameData.size, vector_size.
  intros Hslot. munfold.
  destruct (lookup_lt_is_Some_2 (m_commandBuffers this) (Z.to_nat slot))
    as [cb Hcb]; [lia|].
  exists cb. split; [done|]. simpl.
  rewrite bool_decide_eq_true_2 by lia. by rewrite Hcb.
Qed.

Lemma GetCommandBuffer_out_of_range (this : NvVkDecodeFrameData) (slot : Z) :
  FrameData.size this ≤ slot →
  FrameData.GetCommandBuffer slot this = Abort this.
Proof.
  unfold FrameData.GetCommandBuffer, FrameData.size, vector_size.
  intros Hslot. munfold. simpl. by rewrite bool_decide_eq_false_2 by lia.
Qed.

(** C7. [GetCommandBuffer(slot)] returns the command buffer stored at
    [slot] when [slot] is below the number of allocated slots, and fails
    its assertion (it does not return an error value) when [slot] is at
    or beyond it. *)
Theorem GetCommandBuffer_in_range_or_assert
    (this : NvVkDecodeFrameData) (slot : Z) :
  0 ≤ slot ≤ UINT32_MAX →
  (slot < FrameData.size this →
     ∃ cb, m_commandBuffers this !! Z.to_nat slot = Some cb
           ∧ FrameData.GetCommandBuffer slot this = Ret cb this)
  ∧ (FrameData.size this ≤ slot →
     FrameData.GetCommandBuffer slot this = Abort this).
Proof.
  intros Hslot. split; intros Hcmp.
  - apply GetCommandBuffer_in_range. lia.
  - by apply GetCommandBuffer_out_of_range.
Qed.

Lemma GetCommandBuffer_in_range_or_assert_witness :
  0 ≤ 1 ≤ UINT32_MAX
  ∧ 1 < FrameData.size table3
  ∧ FrameData.size table3 ≤ 3
  ∧ FrameData.GetCommandBuffer 1 table3 = Ret 102 table3
  ∧ FrameData.GetCommandBuffer 3 table3 = Abort table3.
Proof.
  assert (H1 : 0 ≤ 1 ≤ UINT32_MAX) by (vm_compute; split; discriminate).
  assert (H3 : 0 ≤ 3 ≤ UINT32_MAX) by (vm_compute; split; discriminate).
  assert (Hlt : 1 < FrameData.size table3) by reflexivity.
  assert (Hge : FrameData.size table3 ≤ 3) by (vm_compute; discriminate).
  split; [exact H1|]. split; [exact Hlt|]. split; [exact Hge|]. split.
  - destruct (proj1 (GetCommandBuffer_in_range_or_assert table3 1 H1) Hlt)
      as (cb & Hcb & Hget).
    simpl in Hcb. injection Hcb as <-. exact Hget.
  - exact (proj2 (GetCommandBuffer_in_range_or_assert table3 3 H3) Hge).
Defined.

(** C9. [GetCurrentFrameData(slotId, frameDataSlot)] returns -1 and leaves
    [frameDataSlot] as it was when [slotId] is not below the number of
    allocated command buffers; below it, it stores [slotId] and the command
    buffer of that slot and returns [slotId] converted to [int32_t], which
    is [slotId] itself whenever [slotId] does not exceed [INT32_MAX].
    Neither case fails an assertion. *)
Theorem GetCurrentFrameData_spec
    (dec : VkVideoDecoder) (slotId : Z) (frameDataSlot : NvVkDecodeFrameDataSlot) :
  0 ≤ slotId ≤ UINT32_MAX →
  (FrameData.size (m_decodeFramesData dec) ≤ slotId →
     Decoder.GetCurrentFrameData slotId frameDataSlot dec
     = Ret (-1, frameDataSlot) dec)
  ∧ (slotId < FrameData.size (m_decodeFramesData dec) →
     ∃ cb, m_commandBuffers (m_decodeFramesData dec) !! Z.to_nat slotId = Some cb
       ∧ Decoder.GetCurrentFrameData slotId frameDataSlot dec
         = Ret (int32_t_of slotId, {| slot := slotId; commandBuffer := cb |}) dec
       ∧ (slotId ≤ INT32_MAX → int32_t_of slotId = slotId)).
Proof.
  intros Hslot. unfold Decoder.GetCurrentFrameData. split; intros Hcmp.
  - unfold bind at 1. unfold gets at 1.
    by rewrite bool_decide_eq_false_2 by lia.
  - destruct (GetCommandBuffer_in_range (m_decodeFramesData dec) slotId)
      as (cb & Hcb & Hget); [lia|].
    exists cb. split; [exact Hcb|]. split.
    + unfold bind at 1. unfold gets at 1.
      rewrite bool_decide_eq_true_2 by lia.
      unfold bind, zoom. rewrite Hget. unfold ret. simpl.
      by destruct dec.
    + intros. apply int32_t_of_small. lia.
Qed.

Lemma GetCurrentFrameData_spec_witness :
  0 ≤ 2 ≤ UINT32_MAX
  ∧ 2 < FrameData.size (m_decodeFramesData decoder3)
  ∧ FrameData.size (m_decodeFramesData decoder3) ≤ 3
  ∧ Decoder.GetCurrentFrameData 2 {| slot := 9; commandBuffer := 9 |} decoder3
    = Ret (2, {| slot := 2; commandBuffer := 103 |}) decoder3
  ∧ Decoder.GetCurrentFrameData 3 {| slot := 9; commandBuffer := 9 |} decoder3
    = Ret (-1, {| slot := 9; commandBuffer := 9 |}) decoder3.
Proof.
  assert (H2 : 0 ≤ 2 ≤ UINT32_MAX) by (vm_compute; split; discriminate).
  assert (H3 : 0 ≤ 3 ≤ UINT32_MAX) by (vm_compute; split; discriminate).
  assert (Hlt : 2 < FrameData.size (m_decodeFramesData decoder3))
    by reflexivity.
  assert (Hge : FrameData.size (m_decodeFramesData decoder3) ≤ 3)
    by (vm_compute; discriminate).
  split; [exact H2|]. split; [exact Hlt|]. split; [exact Hge|]. split.
  - destruct (proj2 (GetCurrentFrameData_spec decoder3 2
                       {| slot := 9; commandBuffer := 9 |} H2) Hlt)
      as (cb & Hcb & Hget & _).
    simpl in Hcb. injection Hcb as <-. exact Hget.
  - exact (proj1 (GetCurrentFrameData_spec decoder3 3
                    {| slot := 9; commandBuffer := 9 |} H3) Hge).
Defined.

(** In range but above [INT32_MAX], the slot index comes back wrapped. *)
Lemma GetCurrentFrameData_above_INT32_MAX dec slotId fds :
  INT32_MAX < slotId ≤ UINT32_MAX →
  slotId < FrameData.size (m_decodeFramesData dec) →
  ∃ cb, m_commandBuffers (m_decodeFramesData dec) !! Z.to_nat slotId = Some cb
    ∧ Decoder.GetCurrentFrameData slotId fds dec
      = Ret (slotId - 2 ^ 32, {| slot := slotId; commandBuffer := cb |}) dec.
Proof.
  intros Hslot Hlt. unfold INT32_MAX, UINT32_MAX in Hslot.
  destruct (GetCommandBuffer_in_range (m_decodeFramesData dec) slotId)
    as (cb & Hcb & Hget); [lia|].
  exists cb. split; [exact Hcb|].
  unfold Decoder.GetCurrentFrameData.
  unfold bind at 1. unfold gets at 1.
  rewrite bool_decide_eq_true_2 by lia.
  unfold bind, zoom. rewrite Hget. unfold ret. cbn [slot commandBuffer].
  replace (int32_t_of slotId) with (slotId - 2 ^ 32).
  - by destruct dec.
  - unfold int32_t_of.
    rewrite <- (Z.mod_unique (slotId + 2 ^ 31) (2 ^ 32) 1 (slotId - 2 ^ 31));
      lia.
Qed.

(** C9 (counterexample).  On a table of 2^31 + 1 slots the slot index 2^31
    is below the count, and [GetCurrentFrameData] stores it in
    [frameDataSlot] but returns -2147483648, not the slot index. *)
Lemma GetCurrentFrameData_counterexample :
  let slotId := 2147483648 in
  0 ≤ slotId ≤ UINT32_MAX
  ∧ FrameData.size (m_decodeFramesData decoder_huge) = 2147483649
  ∧ slotId < FrameData.size (m_decodeFramesData decoder_huge)
  ∧ Decoder.GetCurrentFrameData slotId {| slot := 9; commandBuffer := 9 |}
      decoder_huge
    = Ret (-2147483648, {| slot := slotId; commandBuffer := 101 |}) decoder_huge
  ∧ -2147483648 ≠ slotId.
Proof.
  intros slotId.
  assert (Hbufs : m_commandBuffers (m_decodeFramesData decoder_huge)
                  = replicate (Z.to_nat 2147483649) 101) by reflexivity.
  assert (Hsize : FrameData.size (m_decodeFramesData decoder_huge) = 2147483649).
  { unfold FrameData.size, vector_size.
    rewrite Hbufs, length_replicate. apply Z2Nat.id. discriminate. }
  assert (Hrange : INT32_MAX < slotId ≤ UINT32_MAX)
    by (split; [reflexivity|discriminate]).
  assert (Hlt : slotId < FrameData.size (m_decodeFramesData decoder_huge))
    by (rewrite Hsize; reflexivity).
  split; [split; discriminate|]. split; [exact Hsize|]. split; [exact Hlt|].
  split; [|discriminate].
  destruct (GetCurrentFrameData_above_INT32_MAX decoder_huge slotId
              {| slot := 9; commandBuffer := 9 |} Hrange Hlt)
    as (cb & Hcb & Hget).
  rewrite Hget. rewrite Hbufs in Hcb.
  apply lookup_replicate in Hcb as [-> _]. reflexivity.
Qed.

(** *** [resize] *)

Section resize_facts.
Context {D : Type} `{!VulkanDeviceContext D}.
Implicit Types (this : NvVkDecodeFrameData) (w : World D).

(** [resize] on a table that has its pool: one allocation request, then
    the assertion on its result. *)
Lemma resize_with_pool this w n width height chroma a1 a2 :
  m_vkDevCtx this = true →
  m_videoCommandPool this ≠ VK_NULL_HANDLE →
  let old := FrameData.size this in
  let info := cmdInfo_of (m_videoCommandPool this)
                (uint32_t_of (size_t_of (n - old))) in
  let res := AllocateCommandBuffers (device w) info in
  let bufs' := vector_store old res.1.2 (vector_resize n (m_commandBuffers this)) in
  let w' := {| device := res.2;
               calls := calls w ++ [CallAllocateCommandBuffers info old res.1.1];
               stderr := stderr w |} in
  FrameData.resize n width height chroma a1 a2 (this, w)
  = if res.1.1 =? VK_SUCCESS
    then Ret old ({| m_vkDevCtx := true;
                     m_maxCodedWidth := uint32_t_of width;
                     m_videoCommandPool := m_videoCommandPool this;
                     m_commandBuffers := bufs';
                     m_bitstreamBuffersQueue := m_bitstreamBuffersQueue this |}, w')
    else Abort ({| m_vkDevCtx := true;
                   m_maxCodedWidth := m_maxCodedWidth this;
                   m_videoCommandPool := m_videoCommandPool this;
                   m_commandBuffers := bufs';
                   m_bitstreamBuffersQueue := m_bitstreamBuffersQueue this |}, w').
Proof.
  intros Hctx Hpool old info res bufs' w'.
  unfold FrameData.resize, FrameData.dev_AllocateCommandBuffers,
    FrameData.set_buffers, FrameData.set_maxCodedWidth,
    FrameData.fprintf_stderr.
  munfold. simpl. rewrite Hctx. simpl.
  destruct (Z.eqb_spec (m_videoCommandPool this) VK_NULL_HANDLE) as [|_];
    [done|].
  simpl.
  subst bufs' w' res info old. unfold cmdInfo_of, FrameData.size.
  destruct (AllocateCommandBuffers _ _) as [[r hs] d]. simpl.
  destruct (r =? VK_SUCCESS); simpl; by rewrite Hctx.
Qed.

(** [resize] on a table without a pool: the pool is created first, and
    the rest is [resize] on the table with that pool. *)
Lemma resize_without_pool this w n width height chroma a1 a2 :
  m_vkDevCtx this = true →
  m_videoCommandPool this = VK_NULL_HANDLE →
  let info := cmdPoolInfo_of (GetVideoDecodeQueueFamilyIdx (device w)) in
  let res := CreateCommandPool (device w) info in
  let this1 := {| m_vkDevCtx := true;
                  m_maxCodedWidth := m_maxCodedWidth this;
                  m_videoCommandPool := res.1.2;
                  m_commandBuffers := m_commandBuffers this;
                  m_bitstreamBuffersQueue := m_bitstreamBuffersQueue this |} in
  let w1 := {| device := res.2;
               calls := calls w ++ [CallCreateCommandPool info res.1.1 res.1.2];
               stderr := stderr w |} in
  FrameData.resize n width height chroma a1 a2 (this, w)
  = if res.1.1 =? VK_SUCCESS
    then
      let old := FrameData.size this in
      let ainfo := cmdInfo_of res.1.2 (uint32_t_of (size_t_of (n - old))) in
      let ares := AllocateCommandBuffers res.2 ainfo in
      let bufs' := vector_store old ares.1.2
                     (vector_resize n (m_commandBuffers this)) in
      let w' := {| device := ares.2;
                   calls := calls w1 ++ [CallAllocateCommandBuffers ainfo old ares.1.1];
                   stderr := stderr w |} in
      if ares.1.1 =? VK_SUCCESS
      then Ret old ({| m_vkDevCtx := true;
                       m_maxCodedWidth := uint32_t_of width;
                       m_videoCommandPool := res.1.2;
                       m_commandBuffers := bufs';
                       m_bitstreamBuffersQueue := m_bitstreamBuffersQueue this |}, w')
      else Abort ({| m_vkDevCtx := true;
                     m_maxCodedWidth := m_maxCodedWidth this;
                     m_videoCommandPool := res.1.2;
                     m_commandBuffers := bufs';
                     m_bitstreamBuffersQueue := m_bitstreamBuffersQueue this |}, w')
    else Abort (this1, w1).
Proof.
  intros Hctx Hpool info res this1 w1.
  destruct this as [ctx mw pool bufs queue]. simpl in *. subst ctx pool.
  unfold FrameData.resize, FrameData.dev_AllocateCommandBuffers,
    FrameData.dev_CreateCommandPool, FrameData.dev_GetVideoDecodeQueueFamilyIdx,
    FrameData.set_buffers, FrameData.set_maxCodedWidth, FrameData.set_pool,
    FrameData.fprintf_stderr.
  munfold. simpl.
  subst this1 w1 res info. unfold cmdPoolInfo_of, cmdInfo_of, FrameData.size.
  destruct (CreateCommandPool _ _) as [[r p] d]. simpl.
  destruct (r =? VK_SUCCESS); simpl; [|done].
  destruct (AllocateCommandBuffers _ _) as [[r' hs] d']. simpl.
  by destruct (r' =? VK_SUCCESS).
Qed.

End resize_facts.

Section resize_claims.
Context {D : Type} `{!VulkanDeviceContext D}.
Implicit Types (this : NvVkDecodeFrameData) (w : World D).

(** Whatever the driver answers, a [resize] that gets as far as the
    allocation leaves the vector with exactly the requested size. *)
Lemma resize_final_size this w n width height chroma a1 a2 :
  m_vkDevCtx this = true →
  m_videoCommandPool this ≠ VK_NULL_HANDLE →
  0 ≤ n →
  FrameData.size
    (final_state (FrameData.resize n width height chroma a1 a2 (this, w))).1 = n.
Proof.
  intros Hctx Hpool Hn.
  rewrite resize_with_pool by done. cbv zeta.
  destruct (_ =? VK_SUCCESS); simpl; unfold FrameData.size; simpl;
    by rewrite vector_size_store, vector_size_resize.
Qed.

(** [table5] is what [resize(5, ...)] leaves of a new table on the test
    driver. *)
Example table5_reached :
  (final_state (FrameData.call_all to_table5
                  (FrameData.construct true, test_world))).1 = table5.
Proof. reflexivity. Qed.

(** C1 (evaluation at the failing input).  On a table of five slots,
    [resize(3, ...)] asks the device for 4294967294 command buffers and
    leaves three slots, whatever the device answers: it returns 5 when the
    device reports success and stops at the assertion otherwise.  The slot
    count does not stay at five. *)
Theorem resize_below_size_shrinks (w : World D) :
  let o := resize_to 3 (table5, w) in
  FrameData.size table5 = 5
  ∧ FrameData.size (final_state o).1 = 3
  ∧ (∃ r, calls (final_state o).2
          = calls w ++ [CallAllocateCommandBuffers (cmdInfo_of 100 4294967294) 5 r]
          ∧ returned o = (r =? VK_SUCCESS))
  ∧ match o with
    | Ret v _ => v = 5
    | Abort _ => True
    | Exit _ _ => False
    end.
Proof.
  intros o. subst o. unfold resize_to.
  split; [reflexivity|]. split; [by apply resize_final_size|].
  rewrite resize_with_pool by done. cbv zeta.
  change (FrameData.size table5) with 5.
  change (uint32_t_of (size_t_of (3 - 5))) with 4294967294.
  change (m_videoCommandPool table5) with 100.
  destruct (AllocateCommandBuffers (device w) (cmdInfo_of 100 4294967294))
    as [[r hs] d]. simpl.
  destruct (r =? VK_SUCCESS) eqn:Hr; simpl; eauto.
Qed.

(** Stores through [&v[old]] leave the slots below [old] alone. *)
Lemma vector_store_resize_prefix (v hs : list Z) n (i : nat) :
  vector_size v ≤ n → (i < length v)%nat →
  vector_store (vector_size v) hs (vector_resize n v) !! i = v !! i.
Proof.
  unfold vector_store, vector_resize, vector_size. intros Hn Hi.
  rewrite list_lookup_inserts_lt by lia.
  rewrite lookup_resize by lia. done.
Qed.

(** C6 (as amended).  A call [resize(targetCount, ...)] with
    [targetCount] not below the current slot count (and the difference
    within [uint32_t]) either stops at an assertion because the device
    call it just made reported a failure, or returns the previous slot
    count, having requested exactly [targetCount - previousCount] command
    buffers from the pool to be stored from slot [previousCount] on, with
    the earlier slots kept; the pool is created in this call exactly when
    the table holds no pool at that moment. *)
Theorem resize_contract this w n width height chroma a1 a2 :
  m_vkDevCtx this = true →
  FrameData.size this ≤ n →
  n - FrameData.size this ≤ UINT32_MAX →
  let old := FrameData.size this in
  match FrameData.resize n width height chroma a1 a2 (this, w) with
  | Ret v (this', w') =>
      v = old
      ∧ FrameData.size this' = n
      ∧ (∀ i : nat, (i < length (m_commandBuffers this))%nat →
           m_commandBuffers this' !! i = m_commandBuffers this !! i)
      ∧ ∃ created,
          calls w' = calls w ++ created
                     ++ [CallAllocateCommandBuffers
                           (cmdInfo_of (m_videoCommandPool this') (n - old))
                           old VK_SUCCESS]
          ∧ if m_videoCommandPool this =? VK_NULL_HANDLE
            then created
                 = [CallCreateCommandPool
                      (cmdPoolInfo_of (GetVideoDecodeQueueFamilyIdx (device w)))
                      VK_SUCCESS (m_videoCommandPool this')]
            else created = []
                 ∧ m_videoCommandPool this' = m_videoCommandPool this
  | Abort (this', w') =>
      ∃ c, last (calls w') = Some c ∧ call_result c ≠ VK_SUCCESS
  | Exit _ _ => False
  end.
Proof.
  intros Hctx Hle Hdiff old.
  assert (Hcount : uint32_t_of (size_t_of (n - old)) = n - old).
  { subst old. rewrite size_t_of_small, uint32_t_of_small; [done|lia|].
    unfold UINT32_MAX in Hdiff. lia. }
  assert (Hn : 0 ≤ n) by (pose proof (vector_size_nonneg (m_commandBuffers this));
                          unfold FrameData.size in *; lia).
  destruct (Z.eqb_spec (m_videoCommandPool this) VK_NULL_HANDLE) as [Hnull|Hpool].
  - rewrite resize_without_pool by done. cbv zeta.
    destruct (CreateCommandPool _ _) as [[r p] d]. simpl.
    destruct (Z.eqb_spec r VK_SUCCESS) as [->|Hr].
    + fold old. rewrite Hcount.
      destruct (AllocateCommandBuffers d _) as [[r' hs] d']. simpl.
      destruct (Z.eqb_spec r' VK_SUCCESS) as [->|Hr'].
      * split; [done|]. split.
        { unfold FrameData.size. simpl.
          by rewrite vector_size_store, vector_size_resize. }
        split.
        { intros i Hi. simpl.
          apply vector_store_resize_prefix; [done|lia]. }
        eexists. simpl. split; [|reflexivity].
        by rewrite <- app_assoc.
      * eexists. split; [apply last_snoc|done].
    + eexists. split; [apply last_snoc|done].
  - rewrite resize_with_pool by done. cbv zeta.
    fold old. rewrite Hcount.
    destruct (AllocateCommandBuffers _ _) as [[r' hs] d']. simpl.
    destruct (Z.eqb_spec r' VK_SUCCESS) as [->|Hr'].
    + split; [done|]. split.
      { unfold FrameData.size. simpl.
        by rewrite vector_size_store, vector_size_resize. }
      split.
      { intros i Hi. simpl.
        apply vector_store_resize_prefix; [done|lia]. }
      exists []. simpl. done.
    + eexists. split; [apply last_snoc|done].
Qed.

End resize_claims.

Lemma resize_contract_witness :
  m_vkDevCtx table5 = true
  ∧ FrameData.size table5 ≤ 8
  ∧ 8 - FrameData.size table5 ≤ UINT32_MAX
  ∧ ∃ this' w',
      resize_to 8 (table5, test_world) = Ret 5 (this', w')
      ∧ FrameData.size this' = 8
      ∧ calls w' = [CallAllocateCommandBuffers (cmdInfo_of 100 3) 5 VK_SUCCESS].
Proof.
  assert (H1 : m_vkDevCtx table5 = true) by reflexivity.
  assert (H2 : FrameData.size table5 ≤ 8) by (vm_compute; discriminate).
  assert (H3 : 8 - FrameData.size table5 ≤ UINT32_MAX)
    by (vm_compute; discriminate).
  split; [exact H1|]. split; [exact H2|]. split; [exact H3|].
  pose proof (resize_contract table5 test_world 8 1920 1080 2 256 256 H1 H2 H3)
    as H.
  cbv zeta in H. fold (@resize_to TestDriver _ 8) in H.
  destruct (resize_to 8 (table5, test_world)) as [v [this' w']| |] eqn:E;
    [|vm_compute in E; discriminate..].
  destruct H as (-> & Hsize & _ & created & Hcalls & Hcreated).
  exists this', w'. split; [reflexivity|]. split; [exact Hsize|].
  assert (Hp : m_videoCommandPool this' = 100)
    by (vm_compute in E; by injection E as <- <-).
  rewrite Hp in *. simpl in Hcreated. destruct Hcreated as [-> _].
  exact Hcalls.
Defined.

(** C6 (counterexample).  The pool is created by a call that is not the
    first one (after [deinit], [resize] creates a pool again), and a call
    with a target below the current count requests 4294967294 command
    buffers, which is not [3 - 5]. *)
Lemma resize_contract_counterexample :
  let s1 := final_state (resize_to 2 (FrameData.construct true, test_world)) in
  let s2 := final_state (FrameData.deinit s1) in
  let s3 := final_state (resize_to 2 s2) in
  (calls s3.2
   = calls s2.2
     ++ [CallCreateCommandPool (cmdPoolInfo_of 3) VK_SUCCESS 103;
         CallAllocateCommandBuffers (cmdInfo_of 103 0) 2 VK_SUCCESS]
   ∧ is_create <$> calls s1.2 = [true; false])
  ∧ (last (calls (final_state (resize_to 3 (table5, test_world))).2)
     = Some (CallAllocateCommandBuffers (cmdInfo_of 100 4294967294) 5
               VK_ERROR_OUT_OF_DEVICE_MEMORY)
     ∧ 4294967294 ≠ 3 - 5).
Proof. vm_compute. split; [split; reflexivity|]. split; [reflexivity|discriminate]. Qed.

Section reach.
Context {D : Type} `{!VulkanDeviceContext D}.
Implicit Types (s : NvVkDecodeFrameData * World D).

Lemma resize_without_ctx s n width height chroma a1 a2 :
  m_vkDevCtx s.1 = false →
  FrameData.resize n width height chroma a1 a2 s = Abort s.
Proof.
  intros Hctx. unfold FrameData.resize. munfold. simpl. by rewrite Hctx.
Qed.

Lemma pool_needs_ctx_resize s n width height chroma a1 a2 :
  pool_needs_ctx s →
  pool_needs_ctx (final_state (FrameData.resize n width height chroma a1 a2 s)).
Proof.
  intros Hinv. destruct s as [this w].
  destruct (m_vkDevCtx this) eqn:Hctx.
  - destruct (decide (m_videoCommandPool this = VK_NULL_HANDLE)) as [Hnull|Hpool].
    + rewrite resize_without_pool by done. cbv zeta.
      destruct (_ =? VK_SUCCESS); [|by intros _].
      destruct (_ =? VK_SUCCESS); by intros _.
    + rewrite resize_with_pool by done. cbv zeta.
      destruct (_ =? VK_SUCCESS); by intros _.
  - by rewrite resize_without_ctx.
Qed.

Lemma deinit_without_pool s :
  m_videoCommandPool s.1 = VK_NULL_HANDLE → FrameData.deinit s = Ret tt s.
Proof.
  intros Hpool. unfold FrameData.deinit. munfold. simpl. by rewrite Hpool.
Qed.

Lemma deinit_with_pool s :
  m_videoCommandPool s.1 ≠ VK_NULL_HANDLE → m_vkDevCtx s.1 = true →
  let pool := m_videoCommandPool s.1 in
  let bufs := m_commandBuffers s.1 in
  let count := uint32_t_of (FrameData.size s.1) in
  FrameData.deinit s
  = Ret tt ({| m_vkDevCtx := true;
               m_maxCodedWidth := m_maxCodedWidth s.1;
               m_videoCommandPool := VK_NULL_HANDLE;
               m_commandBuffers := bufs;
               m_bitstreamBuffersQueue := m_bitstreamBuffersQueue s.1 |},
            {| device := DestroyCommandPool
                           (FreeCommandBuffers (device s.2) pool count bufs) pool;
               calls := calls s.2 ++ [CallFreeCommandBuffers pool count bufs;
                                      CallDestroyCommandPool pool];
               stderr := stderr s.2 |}).
Proof.
  intros Hpool Hctx pool bufs count.
  unfold FrameData.deinit, FrameData.dev_FreeCommandBuffers,
    FrameData.dev_DestroyCommandPool, FrameData.set_pool.
  munfold. simpl.
  destruct (Z.eqb_spec (m_videoCommandPool s.1) VK_NULL_HANDLE) as [|_];
    [done|].
  simpl. rewrite Hctx. simpl. rewrite <- app_assoc. by rewrite Hctx.
Qed.

Lemma pool_needs_ctx_deinit s :
  pool_needs_ctx s → pool_needs_ctx (final_state (FrameData.deinit s)).
Proof.
  intros Hinv.
  destruct (decide (m_videoCommandPool s.1 = VK_NULL_HANDLE)) as [Hnull|Hpool].
  - by rewrite deinit_without_pool.
  - rewrite deinit_with_pool by auto. cbv zeta. simpl. by intros [].
Qed.

Lemma pool_needs_ctx_call s c :
  pool_needs_ctx s → pool_needs_ctx (final_state (FrameData.call c s)).
Proof.
  intros Hinv. destruct c as [n w h chroma a1 a2|]; simpl.
  - pose proof (pool_needs_ctx_resize s n w h chroma a1 a2 Hinv) as H.
    unfold bind, ret. by destruct (FrameData.resize _ _ _ _ _ _ s).
  - by apply pool_needs_ctx_deinit.
Qed.

Lemma pool_needs_ctx_call_all cs : ∀ s,
  pool_needs_ctx s → pool_needs_ctx (final_state (FrameData.call_all cs s)).
Proof.
  induction cs as [|c cs IH]; intros s Hinv; [done|].
  simpl. unfold bind.
  pose proof (pool_needs_ctx_call s c Hinv) as H.
  destruct (FrameData.call c s) as [[] s'|s'|code s']; simpl in *;
    [by apply IH|done..].
Qed.

End reach.

Section ownership.
Context {D : Type} `{!VulkanDeviceContext D}.
Implicit Types (s : NvVkDecodeFrameData * World D).

(** On a table that has its pool, a growing history that runs to its end
    only allocates, always from that pool, and the allocations fill the new
    slots one after the other. *)
Lemma call_all_resize_returns cs s s1 v n width height chroma a1 a2 :
  FrameData.resize n width height chroma a1 a2 s = Ret v s1 →
  FrameData.call_all (FrameData.CallResize n width height chroma a1 a2 :: cs) s
  = FrameData.call_all cs s1.
Proof.
  intros E. cbn [FrameData.call_all FrameData.call]. unfold bind. by rewrite E.
Qed.

Lemma call_all_resize_aborts cs s s1 n width height chroma a1 a2 :
  FrameData.resize n width height chroma a1 a2 s = Abort s1 →
  FrameData.call_all (FrameData.CallResize n width height chroma a1 a2 :: cs) s
  = Abort s1.
Proof.
  intros E. cbn [FrameData.call_all FrameData.call]. unfold bind. by rewrite E.
Qed.

Lemma grow_fills cs : ∀ s,
  m_vkDevCtx s.1 = true →
  m_videoCommandPool s.1 ≠ VK_NULL_HANDLE →
  FrameData.size s.1 ≤ UINT32_MAX →
  grows_from (FrameData.size s.1) cs = true →
  returned (FrameData.call_all cs s) = true →
  let s' := final_state (FrameData.call_all cs s) in
  m_videoCommandPool s'.1 = m_videoCommandPool s.1
  ∧ FrameData.size s'.1 ≤ UINT32_MAX
  ∧ ∃ allocs, calls s'.2 = calls s.2 ++ allocs
              ∧ fills (m_videoCommandPool s.1) (FrameData.size s.1) allocs
                = Some (FrameData.size s'.1).
Proof.
  induction cs as [|c cs IH]; intros [this w] Hctx Hpool Hsz Hgrow Hret.
  { simpl. split; [done|]. split; [done|]. exists []. by rewrite app_nil_r. }
  destruct c as [n width height chroma a1 a2|]; [|done].
  simpl in Hctx, Hpool, Hsz, Hgrow.
  apply andb_prop in Hgrow as [Hn Hgrow]. apply bool_decide_eq_true in Hn.
  pose proof (vector_size_nonneg (m_commandBuffers this)) as Hnn.
  change (vector_size (m_commandBuffers this)) with (FrameData.size this) in Hnn.
  assert (Hcount : uint32_t_of (size_t_of (n - FrameData.size this))
                   = n - FrameData.size this).
  { rewrite size_t_of_small, uint32_t_of_small; [done|lia|].
    unfold UINT32_MAX in *. lia. }
  pose proof (resize_with_pool this w n width height chroma a1 a2 Hctx Hpool)
    as E.
  cbv zeta in E. rewrite Hcount in E.
  destruct (AllocateCommandBuffers (device w) _) as [[r hs] d]. simpl in E.
  destruct (Z.eqb_spec r VK_SUCCESS) as [->|Hr].
  2:{ by rewrite (call_all_resize_aborts _ _ _ _ _ _ _ _ _ E) in Hret. }
  rewrite (call_all_resize_returns _ _ _ _ _ _ _ _ _ _ E) in Hret |- *.
  match type of E with _ = Ret _ ?x => set (s1 := x) in * end.
  assert (Hsize1 : FrameData.size s1.1 = n).
  { subst s1. unfold FrameData.size. simpl.
    rewrite vector_size_store, vector_size_resize; [done|lia]. }
  destruct (IH s1) as (Hp & Hmax & allocs & Hcalls & Hfills);
    [done|done|lia|by rewrite Hsize1|done|].
  cbv zeta in *. split; [by rewrite Hp|]. split; [done|].
  eexists (_ :: allocs). split.
  - rewrite Hcalls. subst s1. simpl. by rewrite <- app_assoc.
  - simpl. rewrite !Z.eqb_refl. simpl.
    replace (FrameData.size this + (n - FrameData.size this)) with n by lia.
    rewrite <- Hfills. by rewrite Hsize1.
Qed.

End ownership.

(** C8. On every table a client can reach (any sequence of [resize] and
    [deinit] calls on a constructed table), teardown succeeds, through
    [deinit] and through the destructor alike: with a pool it frees every
    command buffer of the table and destroys the command pool, in one go,
    and resets the handle; with no pool it does nothing at all.  In
    particular the destructor of a table that was never resized makes no
    device call and changes nothing.  The pool destroyed is the one that
    owns the buffers freed: when the table was only grown (no [deinit]
    before, targets that do not go down, every call returned), the device
    calls since construction are the creation of that pool followed by
    allocations from it which fill the slots [0, size) one after the other,
    and the count freed is [size]. *)
Theorem deinit_releases_buffers_and_pool
    {D} `{!VulkanDeviceContext D} (vkDevCtx : bool) (w0 : World D)
    (cs : list FrameData.Call) :
  let s := final_state (FrameData.call_all cs (FrameData.construct vkDevCtx, w0)) in
  let pool := m_videoCommandPool s.1 in
  let bufs := m_commandBuffers s.1 in
  let count := uint32_t_of (FrameData.size s.1) in
  let released :=
    if pool =? VK_NULL_HANDLE then Ret tt s
    else Ret tt ({| m_vkDevCtx := true;
                    m_maxCodedWidth := m_maxCodedWidth s.1;
                    m_videoCommandPool := VK_NULL_HANDLE;
                    m_commandBuffers := bufs;
                    m_bitstreamBuffersQueue := m_bitstreamBuffersQueue s.1 |},
                 {| device := DestroyCommandPool
                                (FreeCommandBuffers (device s.2) pool count bufs)
                                pool;
                    calls := calls s.2
                             ++ [CallFreeCommandBuffers pool count bufs;
                                 CallDestroyCommandPool pool];
                    stderr := stderr s.2 |}) in
  let info := cmdPoolInfo_of (GetVideoDecodeQueueFamilyIdx (device w0)) in
  FrameData.deinit s = released
  ∧ FrameData.destructor s = released
  ∧ (FrameData.size s.1 ≤ UINT32_MAX → count = FrameData.size s.1)
  ∧ FrameData.destructor (FrameData.construct vkDevCtx, w0)
    = Ret tt (FrameData.construct vkDevCtx, w0)
  ∧ (grows_from 0 cs = true →
     returned (FrameData.call_all cs (FrameData.construct vkDevCtx, w0)) = true →
     pool ≠ VK_NULL_HANDLE →
     (CreateCommandPool (device w0) info).1.2 ≠ VK_NULL_HANDLE →
     count = FrameData.size s.1
     ∧ ∃ allocs,
         calls s.2 = calls w0 ++ CallCreateCommandPool info VK_SUCCESS pool :: allocs
         ∧ fills pool 0 allocs = Some (FrameData.size s.1)).
Proof.
  intros s pool bufs count released info.
  assert (Hinv : pool_needs_ctx s).
  { apply pool_needs_ctx_call_all. by intros []. }
  assert (Hdeinit : FrameData.deinit s = released).
  { subst released pool.
    destruct (Z.eqb_spec (m_videoCommandPool s.1) VK_NULL_HANDLE) as [Hnull|Hpool].
    - by apply deinit_without_pool.
    - by apply deinit_with_pool; [|apply Hinv]. }
  assert (Hcount : FrameData.size s.1 ≤ UINT32_MAX → count = FrameData.size s.1).
  { intros Hsz. apply uint32_t_of_small.
    split; [apply vector_size_nonneg | exact Hsz]. }
  split; [exact Hdeinit|]. split; [exact Hdeinit|]. split; [exact Hcount|].
  split; [reflexivity|].
  intros Hgrow Hret Hpool Hcreated.
  destruct cs as [|[n width height chroma a1 a2|] cs]; [done| |done].
  simpl in Hgrow. apply andb_prop in Hgrow as [Hn Hgrow].
  apply bool_decide_eq_true in Hn.
  destruct vkDevCtx.
  2:{ by rewrite (call_all_resize_aborts _ _ _ _ _ _ _ _ _
                    (resize_without_ctx (FrameData.construct false, w0)
                       n width height chroma a1 a2 eq_refl)) in Hret. }
  pose proof (resize_without_pool (FrameData.construct true) w0
                n width height chroma a1 a2 eq_refl eq_refl) as E.
  cbv zeta in E. fold info in E.
  change (FrameData.size (FrameData.construct true)) with 0 in E.
  rewrite Z.sub_0_r, size_t_of_small, uint32_t_of_small in E
    by (unfold UINT32_MAX in *; lia).
  destruct (CreateCommandPool (device w0) info) as [[r p] d].
  simpl in Hcreated, E.
  destruct (Z.eqb_spec r VK_SUCCESS) as [->|Hr].
  2:{ by rewrite (call_all_resize_aborts _ _ _ _ _ _ _ _ _ E) in Hret. }
  destruct (AllocateCommandBuffers d _) as [[r' hs] d']. simpl in E.
  destruct (Z.eqb_spec r' VK_SUCCESS) as [->|Hr'].
  2:{ by rewrite (call_all_resize_aborts _ _ _ _ _ _ _ _ _ E) in Hret. }
  match type of E with _ = Ret _ ?x => set (s1 := x) in * end.
  assert (Hsize1 : FrameData.size s1.1 = n).
  { subst s1. unfold FrameData.size. simpl.
    rewrite vector_size_store, vector_size_resize; [done|lia]. }
  rewrite (call_all_resize_returns _ _ _ _ _ _ _ _ _ _ E) in Hret.
  subst count pool bufs released s. clear Hdeinit Hinv.
  rewrite (call_all_resize_returns _ _ _ _ _ _ _ _ _ _ E) in Hcount, Hpool |- *.
  destruct (grow_fills cs s1) as (Hp & Hmax & allocs & Hcalls & Hfills);
    [done|done|lia|by rewrite Hsize1|done|].
  cbv zeta in *. split; [by apply Hcount|].
  exists (CallAllocateCommandBuffers (cmdInfo_of p n) 0 VK_SUCCESS :: allocs).
  split.
  - rewrite Hcalls, Hp. subst s1. simpl. by rewrite <- !app_assoc.
  - rewrite Hp. simpl. rewrite !Z.eqb_refl. simpl.
    rewrite <- Hfills. by rewrite Hsize1.
Qed.

Lemma deinit_releases_buffers_and_pool_witness :
  let s := final_state (FrameData.call_all grow_to_table5
                          (FrameData.construct true, test_world)) in
  grows_from 0 grow_to_table5 = true
  ∧ returned (FrameData.call_all grow_to_table5
                (FrameData.construct true, test_world)) = true
  ∧ m_videoCommandPool s.1 ≠ VK_NULL_HANDLE
  ∧ (CreateCommandPool (device test_world)
       (cmdPoolInfo_of (GetVideoDecodeQueueFamilyIdx (device test_world)))).1.2
    ≠ VK_NULL_HANDLE
  ∧ m_commandBuffers s.1 = [101; 102; 103; 104; 105]
  ∧ (∃ allocs, calls s.2 = CallCreateCommandPool (cmdPoolInfo_of 3) VK_SUCCESS 100
                           :: allocs
               ∧ fills 100 0 allocs = Some 5)
  ∧ calls (final_state (FrameData.destructor s)).2
    = calls s.2
      ++ [CallFreeCommandBuffers 100 5 [101; 102; 103; 104; 105];
          CallDestroyCommandPool 100]
  ∧ m_videoCommandPool (final_state (FrameData.destructor s)).1 = VK_NULL_HANDLE
  ∧ returned (FrameData.destructor s) = true
  ∧ FrameData.deinit s = FrameData.destructor s.
Proof.
  intros s.
  assert (H1 : grows_from 0 grow_to_table5 = true) by reflexivity.
  assert (H2 : returned (FrameData.call_all grow_to_table5
                           (FrameData.construct true, test_world)) = true)
    by reflexivity.
  assert (H3 : m_videoCommandPool s.1 ≠ VK_NULL_HANDLE)
    by (vm_compute; discriminate).
  assert (H4 : (CreateCommandPool (device test_world)
                  (cmdPoolInfo_of (GetVideoDecodeQueueFamilyIdx
                                     (device test_world)))).1.2
               ≠ VK_NULL_HANDLE) by (vm_compute; discriminate).
  split; [exact H1|]. split; [exact H2|]. split; [exact H3|]. split; [exact H4|].
  destruct (deinit_releases_buffers_and_pool true test_world grow_to_table5)
    as (Hdeinit & Hdtor & _ & _ & Hown).
  fold s in Hdeinit, Hdtor, Hown. cbv zeta in Hdeinit, Hdtor, Hown.
  destruct (Hown H1 H2 H3 H4) as (_ & allocs & Hcalls & Hfills).
  split; [reflexivity|]. split; [by exists allocs|].
  change (m_videoCommandPool s.1 =? VK_NULL_HANDLE) with false in Hdeinit, Hdtor.
  cbv iota in Hdeinit, Hdtor. rewrite Hdeinit, Hdtor.
  split; [reflexivity|]. split; [reflexivity|]. split; reflexivity.
Defined.

(** ** The logger *)

(** C10. [LOG(FATAL) << str;] with no logger installed prints the
    placeholder lead, the text and a newline on standard output and
    returns; with a logger installed it ends the process with exit code 1
    exactly when the logger's threshold admits [FATAL], and does nothing
    otherwise. *)
Theorem LOG_FATAL_exits_only_through_logger
    (p : simplelogger.Process) (str : string) :
  match simplelogger.logger p with
  | None =>
      simplelogger.LOG simplelogger.FATAL str p
      = Ret tt (simplelogger.write_cout simplelogger.endl
                  (simplelogger.write_cout str
                     (simplelogger.write_cout "[-----] " p)))
  | Some lg =>
      if simplelogger.ShouldLogFor lg simplelogger.FATAL
      then ∃ p', simplelogger.LOG simplelogger.FATAL str p = Exit 1 p'
      else simplelogger.LOG simplelogger.FATAL str p = Ret tt p
  end.
Proof.
  unfold simplelogger.LOG, simplelogger.LogTransaction_ctor,
    simplelogger.LogTransaction_write, simplelogger.LogTransaction_dtor,
    simplelogger.write_logger.
  destruct p as [[lg|] out file now]; simpl.
  - destruct lg as [lvl lead stamp mtx k].
    unfold simplelogger.ShouldLogFor. simpl.
    destruct (bool_decide (lvl ≤ simplelogger.FATAL)) eqn:Hadm.
    + destruct k; munfold;
        repeat first [ rewrite Hadm | progress simpl
                     | progress unfold simplelogger.ShouldLogFor ];
        eauto.
    + munfold.
      by repeat first [ rewrite Hadm | progress simpl
                      | progress unfold simplelogger.ShouldLogFor ].
  - reflexivity.
Qed.

(** ** The bounded recyclable pool *)

Section pool_facts.
Import Pool.
Implicit Types (p : Pool) (e : PoolEntry).

Lemma find_none_when_all_in_use sizeHint l :
  all_in_use l → list_find (serves sizeHint) l = None.
Proof.
  intros Hall. apply list_find_None.
  eapply Forall_impl; [exact Hall|].
  intros e He [Hfree _]. congruence.
Qed.

(** With every slot handed out and the bound reached, nothing can be
    acquired, whatever the size hint. *)
Lemma acquire_exhausted p sizeHint :
  all_in_use (slots p) → (maxPoolNodes p ≤ length (slots p))%nat →
  acquire sizeHint p = Ret ResourceExhausted p.
Proof.
  intros Hall Hfull. unfold acquire. munfold. simpl.
  rewrite find_none_when_all_in_use by done.
  by rewrite bool_decide_eq_false_2 by lia.
Qed.

(** With every slot handed out and room left, the pool grows by a slot of
    the size asked for. *)
Lemma acquire_grows p sizeHint :
  all_in_use (slots p) → (length (slots p) < maxPoolNodes p)%nat →
  acquire sizeHint p
  = Ret (Acquired (length (slots p)))
        (set_slots (slots p ++ [fresh_slot sizeHint]) p).
Proof.
  intros Hall Hroom. unfold acquire. munfold. simpl.
  rewrite find_none_when_all_in_use by done.
  by rewrite bool_decide_eq_true_2 by lia.
Qed.

Lemma acquire_all_grows hints : ∀ p,
  all_in_use (slots p) →
  (length (slots p) + length hints ≤ maxPoolNodes p)%nat →
  acquire_all hints p
  = Ret (Acquired <$> seq (length (slots p)) (length hints))
        (set_slots (slots p ++ (fresh_slot <$> hints)) p).
Proof.
  induction hints as [|h hs IH]; intros p Hall Hroom; simpl.
  - unfold ret. rewrite app_nil_r. by destruct p.
  - simpl in Hroom. unfold bind at 1. rewrite acquire_grows by (done || lia).
    unfold bind at 1. rewrite IH; simpl.
    + unfold ret. rewrite length_app. simpl.
      replace (length (slots p) + 1)%nat with (S (length (slots p))) by lia.
      by rewrite <- app_assoc.
    + apply Forall_app. split; [done|]. by repeat constructor.
    + rewrite length_app. simpl. lia.
Qed.

(** Dropping a reference: the slot becomes free exactly when the count
    reaches zero. *)
Lemma release_in_use p h e :
  slots p !! h = Some e → in_use e = true → (0 < refcount e)%nat →
  release h p
  = Ret tt (set_slots (<[h := {| capacity := capacity e;
                                 refcount := pred (refcount e);
                                 in_use := negb (pred (refcount e) =? 0)%nat |}]>
                         (slots p)) p).
Proof.
  intros Hh Huse Hcnt. unfold release. munfold. simpl.
  rewrite Hh, Huse. simpl.
  by rewrite bool_decide_eq_true_2 by done.
Qed.

(** The only free slot is found, if it is large enough. *)
Lemma find_single_free sizeHint (l : list PoolEntry) i c :
  all_in_use l → (i < length l)%nat →
  list_find (serves sizeHint)
    (<[i := {| capacity := c; refcount := 0; in_use := false |}]> l)
  = if bool_decide (sizeHint ≤ c)
    then Some (i, {| capacity := c; refcount := 0; in_use := false |})
    else None.
Proof.
  intros Hall Hi. case_bool_decide as Hc.
  - apply list_find_Some. split; [by apply list_lookup_insert_eq|].
    split; [by split|].
    intros j y Hj Hlt [Hfree _].
    rewrite list_lookup_insert_ne in Hj by lia.
    unfold all_in_use in Hall. rewrite Forall_forall in Hall.
    assert (in_use y = true) by (apply Hall; by eapply list_elem_of_lookup_2).
    congruence.
  - apply list_find_None. apply Forall_forall. intros y Hy [Hfree Hcap].
    apply list_elem_of_lookup in Hy as [j Hj].
    destruct (decide (j = i)) as [->|Hne].
    + rewrite list_lookup_insert_eq in Hj by done. injection Hj as <-.
      simpl in Hcap. lia.
    + rewrite list_lookup_insert_ne in Hj by done.
      unfold all_in_use in Hall. rewrite Forall_forall in Hall.
      assert (in_use y = true) by (apply Hall; by eapply list_elem_of_lookup_2).
      congruence.
Qed.

End pool_facts.

(** C5 (as amended).  The bitstream buffer pool is bounded by 64 slots.
    In a pool bounded by [K], [K] acquisitions without a release all
    succeed and one more fails with [ResourceExhausted], whatever size is
    asked for; after one release, the next acquisition succeeds exactly
    when its size hint does not exceed the capacity of the released slot
    (it then gets that slot), and fails with [ResourceExhausted] otherwise.
    A release puts the slot back in the free set exactly when it takes the
    reference count to zero. *)
Theorem pool_exhaustion_and_recycling
    (K : nat) (hints : list Z) (i : nat) (c sizeHint : Z) :
  length hints = K →
  hints !! i = Some c →
  Pool.maxPoolNodes VulkanBitstreamBufferPool = 64%nat
  ∧ (∃ full released,
      Pool.acquire_all hints (Pool.empty K)
      = Ret (Pool.Acquired <$> seq 0 K) full
      ∧ (∀ any, Pool.acquire any full = Ret Pool.ResourceExhausted full)
      ∧ Pool.release i full = Ret tt released
      ∧ Pool.slots released !! i
        = Some {| Pool.capacity := c; Pool.refcount := 0; Pool.in_use := false |}
      ∧ Pool.acquire sizeHint released
        = if bool_decide (sizeHint ≤ c)
          then Ret (Pool.Acquired i) full
          else Ret Pool.ResourceExhausted released)
  ∧ (∀ p h e,
      Pool.slots p !! h = Some e → Pool.in_use e = true →
      (0 < Pool.refcount e)%nat →
      ∃ p' e', Pool.release h p = Ret tt p'
        ∧ Pool.slots p' !! h = Some e'
        ∧ Pool.refcount e' = pred (Pool.refcount e)
        ∧ (Pool.in_use e' = false ↔ Pool.refcount e' = 0%nat)).
Proof.
  intros HK Hi. split; [reflexivity|]. split.
  - set (full := Pool.set_slots (fresh_slot <$> hints) (Pool.empty K)).
    assert (Hall : all_in_use (Pool.slots full)).
    { simpl. apply Forall_fmap. by apply Forall_true. }
    assert (Hlen : length (Pool.slots full) = K)
      by (simpl; by rewrite length_fmap).
    assert (Hslot : Pool.slots full !! i = Some (fresh_slot c))
      by (simpl; by rewrite list_lookup_fmap, Hi).
    assert (HiK : (i < K)%nat) by (rewrite <- HK; by eapply lookup_lt_Some).
    set (freed := {| Pool.capacity := c; Pool.refcount := 0;
                     Pool.in_use := false |}).
    exists full, (Pool.set_slots (<[i := freed]> (Pool.slots full)) full).
    split; [|split; [|split; [|split]]].
    + rewrite acquire_all_grows; simpl; [by rewrite HK|constructor|lia].
    + intros any. apply acquire_exhausted; [done|]. simpl in *. lia.
    + by rewrite (release_in_use full i (fresh_slot c)) by (done || simpl; lia).
    + simpl. apply list_lookup_insert_eq. by rewrite length_fmap, HK.
    + unfold Pool.acquire. munfold. cbn [Pool.slots Pool.set_slots Pool.maxPoolNodes].
      subst freed.
      rewrite find_single_free by (done || lia).
      case_bool_decide.
      * cbn [Pool.handed_out Pool.capacity].
        rewrite list_insert_insert_eq.
        rewrite list_insert_id by done. unfold Pool.set_slots. done.
      * rewrite length_insert.
        rewrite bool_decide_eq_false_2; [done|]. simpl in *. lia.
  - intros p h e Hh Huse Hcnt.
    eexists _, _. split; [by apply release_in_use|].
    split; [simpl; apply list_lookup_insert_eq; by eapply lookup_lt_Some|].
    split; [done|]. simpl.
    destruct (pred (Pool.refcount e)); simpl; split; (done || lia).
Qed.

Lemma pool_exhaustion_and_recycling_witness :
  length [4096; 1024; 2048] = 3%nat
  ∧ [4096; 1024; 2048] !! 1%nat = Some 1024
  ∧ ∃ full released,
      Pool.acquire_all [4096; 1024; 2048] (Pool.empty 3)
      = Ret [Pool.Acquired 0; Pool.Acquired 1; Pool.Acquired 2] full
      ∧ Pool.acquire 16 full = Ret Pool.ResourceExhausted full
      ∧ Pool.release 1 full = Ret tt released
      ∧ Pool.acquire 512 released = Ret (Pool.Acquired 1) full.
Proof.
  assert (H1 : length [4096; 1024; 2048] = 3%nat) by reflexivity.
  assert (H2 : [4096; 1024; 2048] !! 1%nat = Some 1024) by reflexivity.
  split; [exact H1|]. split; [exact H2|].
  destruct (pool_exhaustion_and_recycling 3 [4096; 1024; 2048] 1 1024 512 H1 H2)
    as (_ & (full & released & Hall & Hfull & Hrel & _ & Hacq) & _).
  exists full, released.
  split; [exact Hall|]. split; [apply Hfull|]. split; [exact Hrel|].
  exact Hacq.
Defined.

(** C5 (counterexample).  The 64-slot pool, filled with 1024-byte
    requests: the 65th acquisition fails, and after a release the next
    acquisition, which asks for 2048 bytes, fails as well. *)
Lemma pool_reacquire_counterexample :
  let full := final_state (Pool.acquire_all (replicate 64 1024)
                             VulkanBitstreamBufferPool) in
  let released := final_state (Pool.release 0 full) in
  returned (Pool.acquire_all (replicate 64 1024) VulkanBitstreamBufferPool) = true
  ∧ Pool.acquire 1024 full = Ret Pool.ResourceExhausted full
  ∧ Pool.release 0 full = Ret tt released
  ∧ Pool.acquire 2048 released = Ret Pool.ResourceExhausted released.
Proof. vm_compute. repeat split. Qed.

(** ** The parameter-set cache: the queue *)

Section cache_queue.
Import ParameterSetCache.
Implicit Types (c : Cache) (ps : ParameterSet) (t : ParameterSetType).

Lemma pt_get_set_eq {A} t (x : A) a : pt_get t (pt_set t x a) = x.
Proof. by destruct t. Qed.

Lemma pt_get_set_ne {A} t t' (x : A) a :
  t ≠ t' → pt_get t' (pt_set t x a) = pt_get t' a.
Proof. by destruct t, t'. Qed.

Lemma adjacent_distinct_snoc (l : list Z) (x : Z) :
  adjacent_distinct (l ++ [x])
  = adjacent_distinct l
    && match last l with Some y => negb (y =? x) | None => true end.
Proof.
  induction l as [|a [|b l] IH]; simpl in *; [done| |].
  - by rewrite !andb_true_r.
  - rewrite IH. by rewrite andb_assoc.
Qed.

Lemma pending_ids_snoc t c ps n :
  ps_id <$> filter (λ p, ps_type p = t)
              (qe_set <$> queue c ++ [{| qe_set := ps; qe_updateSequenceCount := n |}])
  = pending_ids t c ++ (if decide (ps_type ps = t) then [ps_id ps] else []).
Proof.
  unfold pending_ids. rewrite fmap_app, filter_app, fmap_app. f_equal.
  simpl. rewrite filter_cons, filter_nil. by case_decide.
Qed.

(** The step taken when the incoming id is the last queued one. *)
Lemma addPictureParameters_seen ps n c :
  ps_id ps = pt_get (ps_type ps) (lastIdInQueue c) →
  addPictureParameters ps n c
  = (AlreadySeen (pt_get (ps_type ps) (lastQueuedSet c)), c).
Proof.
  intros Hid. unfold addPictureParameters.
  by rewrite (proj2 (Z.eqb_eq _ _) Hid).
Qed.

(** The step taken otherwise. *)
Lemma addPictureParameters_new ps n c :
  ps_id ps ≠ pt_get (ps_type ps) (lastIdInQueue c) →
  (addPictureParameters ps n c).1 = Enqueued ps
  ∧ queue (addPictureParameters ps n c).2
    = queue c ++ [{| qe_set := ps; qe_updateSequenceCount := n |}]
  ∧ lastIdInQueue (addPictureParameters ps n c).2
    = pt_set (ps_type ps) (ps_id ps) (lastIdInQueue c)
  ∧ lastQueuedSet (addPictureParameters ps n c).2
    = pt_set (ps_type ps) (Some ps) (lastQueuedSet c).
Proof.
  intros Hid. unfold addPictureParameters.
  by rewrite (proj2 (Z.eqb_neq _ _) Hid).
Qed.

Lemma queue_inv_empty : queue_inv empty.
Proof. intros t. by destruct t. Qed.

Lemma queue_inv_add ps n c :
  queue_inv c → queue_inv (addPictureParameters ps n c).2.
Proof.
  intros Hinv.
  destruct (decide (ps_id ps = pt_get (ps_type ps) (lastIdInQueue c)))
    as [Hid|Hid].
  { by rewrite addPictureParameters_seen. }
  destruct (addPictureParameters_new ps n c Hid) as (_ & Hq & Hl & Hs).
  intros t. destruct (Hinv t) as (Hset & Hadj & Hlast).
  unfold pending_ids. rewrite Hq, Hl, Hs, pending_ids_snoc.
  destruct (decide (ps_type ps = t)) as [<-|Hne].
  - rewrite !pt_get_set_eq. split; [done|]. split.
    + rewrite adjacent_distinct_snoc, Hadj. simpl.
      destruct (last (pending_ids (ps_type ps) c)) as [y|] eqn:Hy; [|done].
      rewrite (Hlast y eq_refl). apply negb_true_iff, Z.eqb_neq. congruence.
    + intros x. rewrite last_snoc. congruence.
  - rewrite !pt_get_set_ne by done. rewrite app_nil_r. done.
Qed.

(** Nothing but [addPictureParameters] and the flush touches the queue
    bookkeeping, and the flush only empties the queue. *)
Lemma foldl_flush_entry_queue_fields q : ∀ c,
  lastIdInQueue (foldl flush_entry c q) = lastIdInQueue c
  ∧ lastQueuedSet (foldl flush_entry c q) = lastQueuedSet c.
Proof.
  induction q as [|e q IH]; intros c; [done|]. simpl.
  destruct (IH (flush_entry c e)) as [-> ->].
  unfold flush_entry.
  destruct (candidate _ _) as [o|]; [|done].
  by destruct (checkAfterUpdate _ _).
Qed.

Lemma queue_inv_flush c : queue_inv c → queue_inv (flushQueue c).2.
Proof.
  intros Hinv t. destruct (Hinv t) as (Hset & _ & _).
  unfold flushQueue, pending_ids. simpl.
  destruct (foldl_flush_entry_queue_fields (queue c) c) as [-> ->].
  split; [done|]. split; [done|]. intros x Hx. discriminate.
Qed.

Lemma queue_inv_step collides c op :
  queue_inv c → queue_inv (step collides c op).
Proof.
  intros Hinv. destruct op as [ps n|ps n| |r|r]; simpl.
  - by apply queue_inv_add.
  - unfold onParametersUpdate.
    destruct (checkBeforeUpdate _ _ _); [by apply queue_inv_add|done].
  - by apply queue_inv_flush.
  - unfold decodePicture, getCurrentParameters.
    destruct (current c); [|done]. by destruct (requests c !! r).
  - unfold retirePicture. by destruct (requests c !! r).
Qed.

Lemma queue_inv_run collides ops : ∀ c,
  queue_inv c → queue_inv (run collides ops c).
Proof.
  induction ops as [|op ops IH]; intros c Hinv; [done|].
  simpl. apply IH. by apply queue_inv_step.
Qed.

End cache_queue.

(** C2 (as amended).  In every state the cache reaches, a set whose id is
    the most recently queued id of its type is not enqueued again: the
    cache stays as it is and the set queued last for that type, which has
    the same type and id, is returned.  Any other set is appended and
    becomes the most recently queued one.  Hence no two pending entries of
    one type that follow each other carry the same id. *)
Theorem addPictureParameters_skips_repeated_id
    (collides : ParameterSetCache.Cache → ParameterSetCache.ParameterSet → bool)
    (ops : list ParameterSetCache.CacheOp)
    (ps : ParameterSetCache.ParameterSet) (n : Z) :
  let c := ParameterSetCache.run collides ops ParameterSetCache.empty in
  let t := ParameterSetCache.ps_type ps in
  0 ≤ ParameterSetCache.ps_id ps →
  (if ParameterSetCache.ps_id ps
      =? ParameterSetCache.pt_get t (ParameterSetCache.lastIdInQueue c)
   then ∃ q, ParameterSetCache.addPictureParameters ps n c
             = (ParameterSetCache.AlreadySeen (Some q), c)
             ∧ ParameterSetCache.ps_type q = t
             ∧ ParameterSetCache.ps_id q = ParameterSetCache.ps_id ps
   else (ParameterSetCache.addPictureParameters ps n c).1
        = ParameterSetCache.Enqueued ps
        ∧ ParameterSetCache.queue (ParameterSetCache.addPictureParameters ps n c).2
          = ParameterSetCache.queue c
            ++ [{| ParameterSetCache.qe_set := ps;
                   ParameterSetCache.qe_updateSequenceCount := n |}]
        ∧ ParameterSetCache.pt_get t
            (ParameterSetCache.lastIdInQueue
               (ParameterSetCache.addPictureParameters ps n c).2)
          = ParameterSetCache.ps_id ps)
  ∧ ∀ t', ParameterSetCache.adjacent_distinct
            (ParameterSetCache.pending_ids t'
               (ParameterSetCache.addPictureParameters ps n c).2) = true.
Proof.
  intros c t Hid.
  assert (Hinv : queue_inv c)
    by (apply queue_inv_run, queue_inv_empty).
  split.
  - destruct (Z.eqb_spec (ParameterSetCache.ps_id ps)
                (ParameterSetCache.pt_get t (ParameterSetCache.lastIdInQueue c)))
      as [Heq|Hne].
    + rewrite addPictureParameters_seen by done.
      destruct (Hinv t) as (Hset & _ & _). fold t.
      destruct (ParameterSetCache.pt_get t (ParameterSetCache.lastQueuedSet c))
        as [q|].
      * exists q. destruct Hset as [Ht Hq]. split; [done|]. split; [done|].
        congruence.
      * lia.
    + destruct (addPictureParameters_new ps n c Hne) as (H1 & H2 & H3 & _).
      split; [done|]. split; [done|]. rewrite H3. apply pt_get_set_eq.
  - intros t'. by destruct (queue_inv_add ps n c Hinv t') as (_ & ? & _).
Qed.

Lemma addPictureParameters_skips_repeated_id_witness :
  let c := ParameterSetCache.run ParameterSetCache.no_collision
             [ParameterSetCache.OpAdd pps1 1; ParameterSetCache.OpAdd pps2 2]
             ParameterSetCache.empty in
  0 ≤ ParameterSetCache.ps_id pps2
  ∧ ParameterSetCache.addPictureParameters pps2 3 c
    = (ParameterSetCache.AlreadySeen (Some pps2), c).
Proof.
  intros c.
  assert (H0 : 0 ≤ ParameterSetCache.ps_id pps2) by (vm_compute; discriminate).
  split; [exact H0|].
  destruct (addPictureParameters_skips_repeated_id
              ParameterSetCache.no_collision
              [ParameterSetCache.OpAdd pps1 1; ParameterSetCache.OpAdd pps2 2]
              pps2 3 H0) as [Hstep _].
  fold c in Hstep.
  change (ParameterSetCache.ps_id pps2
          =? ParameterSetCache.pt_get (ParameterSetCache.ps_type pps2)
               (ParameterSetCache.lastIdInQueue c)) with true in Hstep.
  cbv iota in Hstep. destruct Hstep as (q & Hadd & _).
  rewrite Hadd. vm_compute in Hadd. injection Hadd as <-. reflexivity.
Defined.

(** C2 (counterexample).  PPS 1, PPS 2 and PPS 1 again, added without a
    flush in between: the queue holds two pending entries for (PPS, 1). *)
Lemma addPictureParameters_counterexample :
  let c := ParameterSetCache.run ParameterSetCache.no_collision
             [ParameterSetCache.OpAdd pps1 1; ParameterSetCache.OpAdd pps2 2;
              ParameterSetCache.OpAdd pps1 3]
             ParameterSetCache.empty in
  ParameterSetCache.qe_set <$> ParameterSetCache.queue c = [pps1; pps2; pps1]
  ∧ ParameterSetCache.pending_ids ParameterSetCache.PPS c = [1; 2; 1]
  ∧ ¬ NoDup (ParameterSetCache.pending_ids ParameterSetCache.PPS c).
Proof.
  intros c. split; [reflexivity|]. split; [reflexivity|].
  change (ParameterSetCache.pending_ids ParameterSetCache.PPS c) with [1; 2; 1].
  intros Hnd. apply NoDup_cons_1_1 in Hnd. apply Hnd. set_solver.
Qed.

(** ** The parameter-set cache: objects and references *)

Section cache_store.
Import ParameterSetCache.
Implicit Types (c : Cache) (st : gmap nat ActiveParametersObject)
  (reqs : gmap nat nat) (h r : nat) (o : ActiveParametersObject).

Lemma holders_ge_1 reqs r h : reqs !! r = Some h → (1 ≤ holders h reqs)%nat.
Proof.
  intros Hr. unfold holders.
  assert (filter (λ kv : nat * nat, kv.2 = h) reqs !! r = Some h) as Hf
    by (by apply map_lookup_filter_Some_2).
  pose proof (map_size_ne_0_lookup_2 _ _ (ex_intro _ h Hf : is_Some _)). lia.
Qed.

Lemma holders_insert_eq reqs r h :
  reqs !! r = None → holders h (<[r := h]> reqs) = S (holders h reqs).
Proof.
  intros Hr. unfold holders. rewrite map_filter_insert_True by done.
  apply map_size_insert_None. apply map_lookup_filter_None. by left.
Qed.

Lemma holders_insert_ne reqs r h h' :
  reqs !! r = None → h' ≠ h → holders h' (<[r := h]> reqs) = holders h' reqs.
Proof.
  intros Hr Hne. unfold holders. f_equal.
  apply map_filter_insert_not'; [simpl; congruence|].
  intros y Hy. congruence.
Qed.

Lemma holders_delete_eq reqs r h :
  reqs !! r = Some h → S (holders h (delete r reqs)) = holders h reqs.
Proof.
  intros Hr. unfold holders. rewrite map_filter_delete.
  assert (filter (λ kv : nat * nat, kv.2 = h) reqs !! r = Some h) as Hf
    by (by apply map_lookup_filter_Some_2).
  rewrite (map_size_delete_Some _ _ (ex_intro _ h Hf : is_Some _)).
  pose proof (map_size_ne_0_lookup_2 _ _ (ex_intro _ h Hf : is_Some _)). lia.
Qed.

Lemma holders_delete_ne reqs r h h' :
  reqs !! r = Some h → h' ≠ h → holders h' (delete r reqs) = holders h' reqs.
Proof.
  intros Hr Hne. unfold holders. rewrite map_filter_delete.
  rewrite delete_id; [done|].
  apply map_lookup_filter_None. right. intros y Hy. simpl. congruence.
Qed.

(** [release_object] and [acquire_object], seen through a lookup. *)

Lemma release_object_ne st h h' :
  h' ≠ h → release_object h st !! h' = st !! h'.
Proof.
  intros Hne. unfold release_object.
  destruct (st !! h) as [o|]; [|done].
  case_bool_decide; [by rewrite lookup_delete_ne|by rewrite lookup_insert_ne].
Qed.

Lemma release_object_eq st h o :
  st !! h = Some o →
  release_object h st !! h
  = if bool_decide (ap_refcount o ≤ 1)%nat then None
    else Some {| ap_sets := ap_sets o; ap_builtAt := ap_builtAt o;
                 ap_refcount := pred (ap_refcount o) |}.
Proof.
  intros Hh. unfold release_object. rewrite Hh.
  case_bool_decide; [by rewrite lookup_delete_eq|by rewrite lookup_insert_eq].
Qed.

Lemma acquire_object_ne st h h' :
  h' ≠ h → acquire_object h st !! h' = st !! h'.
Proof.
  intros Hne. unfold acquire_object.
  destruct (st !! h) as [o|]; [|done]. by rewrite lookup_insert_ne.
Qed.

Lemma acquire_object_eq st h o :
  st !! h = Some o →
  acquire_object h st !! h
  = Some {| ap_sets := ap_sets o; ap_builtAt := ap_builtAt o;
            ap_refcount := S (ap_refcount o) |}.
Proof.
  intros Hh. unfold acquire_object. rewrite Hh. by rewrite lookup_insert_eq.
Qed.

(** Whatever survives a release, or is seen after an acquire, has the
    content it had before. *)
Lemma release_object_content st h h' o' :
  release_object h st !! h' = Some o' →
  ∃ o, st !! h' = Some o ∧ same_content o o'.
Proof.
  destruct (decide (h' = h)) as [->|Hne].
  - destruct (st !! h) as [o|] eqn:Hh.
    + rewrite (release_object_eq _ _ _ Hh). case_bool_decide; [done|].
      intros [= <-]. by exists o.
    + unfold release_object. rewrite Hh. by rewrite Hh.
  - rewrite release_object_ne by done. intros Ho. by exists o'.
Qed.

Lemma acquire_object_content st h h' o' :
  acquire_object h st !! h' = Some o' →
  ∃ o, st !! h' = Some o ∧ same_content o o'.
Proof.
  destruct (decide (h' = h)) as [->|Hne].
  - destruct (st !! h) as [o|] eqn:Hh.
    + rewrite (acquire_object_eq _ _ _ Hh). intros [= <-]. by exists o.
    + unfold acquire_object. rewrite Hh. by rewrite Hh.
  - rewrite acquire_object_ne by done. intros Ho. by exists o'.
Qed.

Lemma store_inv_empty : store_inv empty.
Proof.
  split; [|split]; simpl.
  - intros h o Hh. by rewrite lookup_empty in Hh.
  - intros r h Hr. by rewrite lookup_empty in Hr.
  - intros h Hh. done.
Qed.

(** The invariant only looks at four fields. *)
Lemma store_inv_ext c c' :
  store c' = store c → requests c' = requests c →
  current c' = current c → next_object c' = next_object c →
  store_inv c → store_inv c'.
Proof. unfold store_inv. by intros -> -> -> ->. Qed.

Lemma store_inv_decode r c : store_inv c → store_inv (decodePicture r c).
Proof.
  intros Hinv. pose proof Hinv as (Hcnt & Hreq & Hcur).
  unfold decodePicture, getCurrentParameters.
  destruct (current c) as [h|] eqn:Hc; [|done].
  destruct (requests c !! r) eqn:Hr; [done|].
  destruct (Hcur h eq_refl) as [o Ho].
  split; [|split]; simpl.
  - intros h' o' Ho'.
    destruct (decide (h' = h)) as [->|Hne].
    + rewrite (acquire_object_eq _ _ _ Ho) in Ho'. injection Ho' as <-.
      simpl. destruct (Hcnt h o Ho) as [Hlt Hle]. 
      split; [done|]. rewrite holders_insert_eq by done.
      rewrite decide_True in * by done. lia.
    + rewrite acquire_object_ne in Ho' by done.
      destruct (Hcnt h' o' Ho') as [Hlt Hle].
      split; [done|]. by rewrite holders_insert_ne by done.
  - intros r' h' Hr'. destruct (decide (r' = r)) as [->|Hne].
    + rewrite lookup_insert_eq in Hr'. injection Hr' as <-.
      rewrite (acquire_object_eq _ _ _ Ho). done.
    + rewrite lookup_insert_ne in Hr' by done.
      destruct (decide (h' = h)) as [->|Hne'].
      * rewrite (acquire_object_eq _ _ _ Ho). done.
      * rewrite acquire_object_ne by done. by eapply Hreq.
  - intros h' Hh'. injection Hh' as <-.
    rewrite (acquire_object_eq _ _ _ Ho). done.
Qed.

Lemma store_inv_retire r c : store_inv c → store_inv (retirePicture r c).
Proof.
  intros Hinv. pose proof Hinv as (Hcnt & Hreq & Hcur). unfold retirePicture.
  destruct (requests c !! r) as [h|] eqn:Hr; [|done].
  destruct (Hreq r h Hr) as [o Ho].
  destruct (Hcnt h o Ho) as [Hlt Hle].
  pose proof (holders_delete_eq _ _ _ Hr) as Hdel.
  split; [|split]; simpl.
  - intros h' o' Ho'.
    destruct (decide (h' = h)) as [->|Hne].
    + rewrite (release_object_eq _ _ _ Ho) in Ho'.
      case_bool_decide; [done|]. injection Ho' as <-. simpl.
      split; [done|]. lia.
    + rewrite release_object_ne in Ho' by done.
      destruct (Hcnt h' o' Ho') as [Hlt' Hle'].
      split; [done|]. by rewrite (holders_delete_ne _ _ h) by done.
  - intros r' h' Hr'.
    apply lookup_delete_Some in Hr' as [Hne Hr'].
    destruct (decide (h' = h)) as [->|Hne'].
    + rewrite (release_object_eq _ _ _ Ho).
      assert (1 ≤ holders h (delete r (requests c)))%nat
        by (apply (holders_ge_1 _ r'); by rewrite lookup_delete_ne).
      rewrite bool_decide_eq_false_2 by lia. done.
    + rewrite release_object_ne by done. by eapply Hreq.
  - intros h' Hh'.
    destruct (decide (h' = h)) as [->|Hne'].
    + rewrite (release_object_eq _ _ _ Ho).
      rewrite decide_True in Hle by done.
      pose proof (holders_ge_1 _ _ _ Hr).
      rewrite bool_decide_eq_false_2 by lia. done.
    + rewrite release_object_ne by done. by apply Hcur.
Qed.

Lemma store_inv_install o c :
  ap_refcount o = 1%nat → store_inv c → store_inv (install o c).
Proof.
  intros Hone (Hcnt & Hreq & Hcur).
  assert (Hfresh : ∀ h', (next_object c ≤ h')%nat →
                         holders h' (requests c) = 0%nat).
  { intros h' Hge. unfold holders. apply map_size_empty_iff.
    apply map_empty_filter. intros r h Hr. simpl. intros Heq. subst h.
    destruct (Hreq r h' Hr) as [o' Ho']. destruct (Hcnt h' o' Ho'). lia. }
  set (st := match current c with
             | Some h => release_object h (store c)
             | None => store c
             end).
  assert (Hst : ∀ h' o', st !! h' = Some o' →
            (h' < next_object c)%nat
            ∧ (holders h' (requests c) ≤ ap_refcount o')%nat).
  { intros h' o' Ho'. subst st. destruct (current c) as [h|] eqn:Hc.
    - destruct (decide (h' = h)) as [->|Hne].
      + destruct (Hcur h eq_refl) as [o0 Ho0].
        rewrite (release_object_eq _ _ _ Ho0) in Ho'.
        case_bool_decide; [done|]. injection Ho' as <-. simpl.
        destruct (Hcnt h o0 Ho0) as [? Hle].
        rewrite decide_True in Hle by done. split; [done|lia].
      + rewrite release_object_ne in Ho' by done.
        destruct (Hcnt h' o' Ho') as [? Hle]. split; [done|lia].
    - destruct (Hcnt h' o' Ho') as [? Hle]. split; [done|lia]. }
  assert (Hkeep : ∀ r h, requests c !! r = Some h → is_Some (st !! h)).
  { intros r h Hr. subst st. destruct (current c) as [hc|] eqn:Hc.
    - destruct (decide (h = hc)) as [->|Hne].
      + destruct (Hcur hc eq_refl) as [o0 Ho0].
        rewrite (release_object_eq _ _ _ Ho0).
        destruct (Hcnt hc o0 Ho0) as [? Hle].
        rewrite decide_True in Hle by done.
        pose proof (holders_ge_1 _ _ _ Hr).
        rewrite bool_decide_eq_false_2 by lia. done.
      + rewrite release_object_ne by done. by eapply Hreq.
    - by eapply Hreq. }
  split; [|split]; simpl; fold st.
  - intros h' o' Ho'. destruct (decide (h' = next_object c)) as [->|Hne].
    + rewrite lookup_insert_eq in Ho'. injection Ho' as <-.
      rewrite Hfresh by lia. rewrite decide_True by done. split; lia.
    + rewrite lookup_insert_ne in Ho' by done.
      destruct (Hst h' o' Ho') as [? ?].
      rewrite decide_False by congruence. split; lia.
  - intros r h Hr. destruct (decide (h = next_object c)) as [->|Hne].
    + rewrite lookup_insert_eq. done.
    + rewrite lookup_insert_ne by done. by eapply Hkeep.
  - intros h [= <-]. rewrite lookup_insert_eq. done.
Qed.

Lemma candidate_refcount n c o : candidate n c = Some o → ap_refcount o = 1%nat.
Proof.
  unfold candidate.
  destruct (at_vps (lastAppliedSet c)), (at_sps (lastAppliedSet c)),
    (at_pps (lastAppliedSet c)); try done. by intros [= <-].
Qed.

Lemma store_inv_flush_entry c e : store_inv c → store_inv (flush_entry c e).
Proof.
  intros Hinv. unfold flush_entry.
  assert (store_inv (set_applied (qe_set e) c)) as Hinv'
    by (by eapply store_inv_ext; [..|exact Hinv]).
  destruct (candidate _ _) as [o|] eqn:Hcand; [|done].
  destruct (checkAfterUpdate _ _); [|done].
  apply store_inv_install; [by eapply candidate_refcount|done].
Qed.

Lemma store_inv_foldl_flush q : ∀ c,
  store_inv c → store_inv (foldl flush_entry c q).
Proof.
  induction q as [|e q IH]; intros c Hinv; [done|].
  simpl. apply IH. by apply store_inv_flush_entry.
Qed.

Lemma store_inv_add ps n c : store_inv c → store_inv (addPictureParameters ps n c).2.
Proof.
  intros Hinv. unfold addPictureParameters.
  destruct (_ =? _); [done|]. by eapply store_inv_ext; [..|exact Hinv].
Qed.

Lemma store_inv_step collides c op : store_inv c → store_inv (step collides c op).
Proof.
  intros Hinv. destruct op as [ps n|ps n| |r|r]; simpl.
  - by apply store_inv_add.
  - unfold onParametersUpdate.
    destruct (checkBeforeUpdate _ _ _); [by apply store_inv_add|done].
  - eapply store_inv_ext; [..|apply (store_inv_foldl_flush (queue c) c Hinv)];
      done.
  - by apply store_inv_decode.
  - by apply store_inv_retire.
Qed.

Lemma store_inv_run collides ops : ∀ c,
  store_inv c → store_inv (run collides ops c).
Proof.
  induction ops as [|op ops IH]; intros c Hinv; [done|].
  simpl. apply IH. by apply store_inv_step.
Qed.

(** No step rewrites an object: what a handle below the next one to be
    issued shows after a step, it showed before. *)
Lemma same_content_refl o : same_content o o.
Proof. done. Qed.

Lemma same_content_trans o1 o2 o3 :
  same_content o1 o2 → same_content o2 o3 → same_content o1 o3.
Proof. unfold same_content. intros [-> ->] [-> ->]. done. Qed.

Lemma install_content o c h o' :
  (h < next_object c)%nat →
  store (install o c) !! h = Some o' →
  ∃ o0, store c !! h = Some o0 ∧ same_content o0 o'.
Proof.
  intros Hlt. unfold install. simpl.
  rewrite lookup_insert_ne by lia.
  destruct (current c) as [hc|]; [apply release_object_content|].
  intros Ho'. by exists o'.
Qed.

Lemma flush_entry_next_object c e :
  (next_object c ≤ next_object (flush_entry c e))%nat.
Proof.
  unfold flush_entry. destruct (candidate _ _); [|done].
  destruct (checkAfterUpdate _ _); simpl; lia.
Qed.

Lemma flush_entry_content c e h o' :
  (h < next_object c)%nat →
  store (flush_entry c e) !! h = Some o' →
  ∃ o0, store c !! h = Some o0 ∧ same_content o0 o'.
Proof.
  intros Hlt. unfold flush_entry.
  destruct (candidate _ _) as [o|]; [|by exists o'].
  destruct (checkAfterUpdate _ _); [|by exists o'].
  intros Ho'. by apply (install_content o (set_applied (qe_set e) c)).
Qed.

Lemma foldl_flush_content q : ∀ c h o',
  (h < next_object c)%nat →
  store (foldl flush_entry c q) !! h = Some o' →
  ∃ o0, store c !! h = Some o0 ∧ same_content o0 o'.
Proof.
  induction q as [|e q IH]; intros c h o' Hlt Ho'; [by exists o'|].
  simpl in Ho'.
  destruct (IH (flush_entry c e) h o') as (o1 & Ho1 & Hsame1); [|done|].
  { pose proof (flush_entry_next_object c e). lia. }
  destruct (flush_entry_content c e h o1 Hlt Ho1) as (o0 & Ho0 & Hsame0).
  exists o0. split; [done|]. by eapply same_content_trans.
Qed.

Lemma step_content collides c op h o' :
  (h < next_object c)%nat →
  store (step collides c op) !! h = Some o' →
  ∃ o0, store c !! h = Some o0 ∧ same_content o0 o'.
Proof.
  intros Hlt. destruct op as [ps n|ps n| |r|r]; simpl.
  - unfold addPictureParameters. destruct (_ =? _); by exists o'.
  - unfold onParametersUpdate, addPictureParameters.
    destruct (checkBeforeUpdate _ _ _); [|by exists o'].
    destruct (_ =? _); by exists o'.
  - by apply foldl_flush_content.
  - unfold decodePicture, getCurrentParameters.
    destruct (current c) as [hc|]; [|by exists o'].
    destruct (requests c !! r); [by exists o'|]. simpl.
    apply acquire_object_content.
  - unfold retirePicture.
    destruct (requests c !! r) as [hr|]; [|by exists o'].
    simpl. apply release_object_content.
Qed.

(** A request keeps its handle until it is retired. *)
Lemma foldl_flush_requests q : ∀ c,
  requests (foldl flush_entry c q) = requests c.
Proof.
  induction q as [|e q IH]; intros c; [done|]. simpl. rewrite IH.
  unfold flush_entry. destruct (candidate _ _); [|done].
  by destruct (checkAfterUpdate _ _).
Qed.

Lemma step_requests collides c op r h :
  op ≠ OpRetire r →
  requests c !! r = Some h →
  requests (step collides c op) !! r = Some h.
Proof.
  intros Hop Hr. destruct op as [ps n|ps n| |r'|r']; simpl.
  - unfold addPictureParameters. by destruct (_ =? _).
  - unfold onParametersUpdate, addPictureParameters.
    destruct (checkBeforeUpdate _ _ _); [|done]. by destruct (_ =? _).
  - by rewrite foldl_flush_requests.
  - unfold decodePicture, getCurrentParameters.
    destruct (current c) as [hc|]; [|done].
    destruct (requests c !! r') eqn:Hr'; [done|]. simpl.
    rewrite lookup_insert_ne; [done|]. congruence.
  - unfold retirePicture.
    destruct (requests c !! r') as [hr|]; [|done]. simpl.
    rewrite lookup_delete_ne; [done|]. congruence.
Qed.

(** The object a request holds stays in the store with the content it
    had, through any steps that do not retire the request. *)
Lemma held_object_stable collides ops : ∀ c r h o,
  store_inv c →
  requests c !! r = Some h →
  store c !! h = Some o →
  Forall (λ op, op ≠ OpRetire r) ops →
  requests (run collides ops c) !! r = Some h
  ∧ ∃ o', store (run collides ops c) !! h = Some o'
          ∧ same_content o o'
          ∧ (1 ≤ ap_refcount o')%nat.
Proof.
  induction ops as [|op ops IH]; intros c r h o Hinv Hr Ho Hops.
  - simpl. split; [done|]. exists o. split; [done|]. split; [done|].
    destruct Hinv as (Hcnt & _ & _). destruct (Hcnt h o Ho) as [_ Hle].
    pose proof (holders_ge_1 _ _ _ Hr). lia.
  - apply Forall_cons in Hops as [Hop Hops]. simpl.
    pose proof (store_inv_step collides c op Hinv) as Hinv'.
    pose proof (step_requests collides c op r h Hop Hr) as Hr'.
    destruct Hinv' as (Hcnt' & Hreq' & Hcur').
    destruct (Hreq' r h Hr') as [o1 Ho1].
    assert (Hlt : (h < next_object c)%nat).
    { destruct Hinv as (Hcnt & _ & _). by destruct (Hcnt h o Ho). }
    destruct (step_content collides c op h o1 Hlt Ho1) as (o0 & Ho0 & Hsame).
    assert (o0 = o) as -> by congruence.
    destruct (IH (step collides c op) r h o1) as (Hr2 & o2 & Ho2 & Hsame2 & Hrc);
      [done..|].
    split; [done|]. exists o2. split; [done|].
    split; [by eapply same_content_trans|done].
Qed.

End cache_store.

(** ** The parameter-set cache: snapshots and validation *)

(** C3.  A decode request captures the object that is current when it is
    set up.  Whatever the cache does afterwards (further sets, flushes
    that install new composites, other requests coming and going), as long
    as the request is in flight it holds the same handle, and the object
    behind the handle is alive and shows the parameter sets it showed at
    capture. *)
Theorem captured_parameters_are_stable
    (collides : ParameterSetCache.Cache → ParameterSetCache.ParameterSet → bool)
    (ops0 ops : list ParameterSetCache.CacheOp) (request h : nat) :
  let c0 := ParameterSetCache.run collides ops0 ParameterSetCache.empty in
  ParameterSetCache.getCurrentParameters c0 = Some h →
  ParameterSetCache.requests c0 !! request = None →
  Forall (λ op, op ≠ ParameterSetCache.OpRetire request) ops →
  ∃ o, ParameterSetCache.store c0 !! h = Some o
    ∧ let c2 := ParameterSetCache.run collides ops
                  (ParameterSetCache.decodePicture request c0) in
      ParameterSetCache.requests c2 !! request = Some h
      ∧ ∃ o', ParameterSetCache.store c2 !! h = Some o'
          ∧ ParameterSetCache.ap_sets o' = ParameterSetCache.ap_sets o
          ∧ ParameterSetCache.ap_builtAt o' = ParameterSetCache.ap_builtAt o
          ∧ (1 ≤ ParameterSetCache.ap_refcount o')%nat.
Proof.
  intros c0 Hcur Hfresh Hops.
  assert (Hinv : store_inv c0) by apply store_inv_run, store_inv_empty.
  pose proof Hinv as (_ & _ & Hc).
  destruct (Hc h Hcur) as [o Ho]. exists o. split; [done|].
  pose proof (store_inv_decode request c0 Hinv) as Hinv1.
  assert (Hreq1 : ParameterSetCache.requests
                    (ParameterSetCache.decodePicture request c0) !! request
                  = Some h).
  { unfold ParameterSetCache.decodePicture. rewrite Hcur, Hfresh. simpl.
    apply lookup_insert_eq. }
  assert (Hst1 : ParameterSetCache.store
                   (ParameterSetCache.decodePicture request c0) !! h
                 = Some {| ParameterSetCache.ap_sets := ParameterSetCache.ap_sets o;
                           ParameterSetCache.ap_builtAt := ParameterSetCache.ap_builtAt o;
                           ParameterSetCache.ap_refcount :=
                             S (ParameterSetCache.ap_refcount o) |}).
  { unfold ParameterSetCache.decodePicture. rewrite Hcur, Hfresh. simpl.
    by apply acquire_object_eq. }
  destruct (held_object_stable collides ops _ request h _ Hinv1 Hreq1 Hst1 Hops)
    as (Hr2 & o' & Ho' & [Hsets Hbuilt] & Hrc).
  intros c2. split; [done|]. exists o'. done.
Qed.

Lemma captured_parameters_are_stable_witness :
  let c0 := ParameterSetCache.run ParameterSetCache.no_collision
              scenario_start ParameterSetCache.empty in
  let c2 := ParameterSetCache.run ParameterSetCache.no_collision scenario_rest
              (ParameterSetCache.decodePicture 1 c0) in
  ParameterSetCache.getCurrentParameters c0 = Some 0%nat
  ∧ ParameterSetCache.requests c0 !! 1%nat = None
  ∧ Forall (λ op, op ≠ ParameterSetCache.OpRetire 1) scenario_rest
  ∧ ParameterSetCache.inspect c0 0 = Some (sets_of vps1 sps1 pps1)
  ∧ ParameterSetCache.requests c2 !! 1%nat = Some 0%nat
  ∧ ParameterSetCache.inspect c2 0 = Some (sets_of vps1 sps1 pps1)
  ∧ ParameterSetCache.getCurrentParameters c2 = Some 1%nat
  ∧ ParameterSetCache.inspect c2 1 = Some (sets_of vps1 sps1 pps2).
Proof.
  intros c0 c2.
  assert (H1 : ParameterSetCache.getCurrentParameters c0 = Some 0%nat)
    by reflexivity.
  assert (H2 : ParameterSetCache.requests c0 !! 1%nat = None) by reflexivity.
  assert (H3 : Forall (λ op, op ≠ ParameterSetCache.OpRetire 1) scenario_rest)
    by (repeat (constructor; [discriminate|]); constructor).
  split; [exact H1|]. split; [exact H2|]. split; [exact H3|].
  destruct (captured_parameters_are_stable ParameterSetCache.no_collision
              scenario_start scenario_rest 1 0 H1 H2 H3)
    as (o & Ho & Hreq & o' & Ho' & Hsets & _ & _).
  fold c0 in Ho. fold c0 c2 in Hreq, Ho'.
  assert (Hc0 : ParameterSetCache.inspect c0 0 = Some (sets_of vps1 sps1 pps1))
    by reflexivity.
  split; [exact Hc0|]. split; [exact Hreq|]. split.
  - unfold ParameterSetCache.inspect in *. rewrite Ho in Hc0. rewrite Ho'.
    simpl in *. by rewrite Hsets.
  - split; reflexivity.
Defined.

Section cache_validation.
Import ParameterSetCache.
Implicit Types (c : Cache) (e : ParameterSetQueueEntry).

Lemma flushed_from_refl c : flushed_from c c.
Proof. split; [done|]. by left. Qed.

Lemma flush_entry_discarded c e :
  (∀ o, candidate (qe_updateSequenceCount e) (set_applied (qe_set e) c) = Some o →
        checkAfterUpdate (qe_set e) o = false) →
  current (flush_entry c e) = current c
  ∧ store (flush_entry c e) = store c
  ∧ requests (flush_entry c e) = requests c
  ∧ next_object (flush_entry c e) = next_object c.
Proof.
  intros Hfail. unfold flush_entry.
  destruct (candidate _ _) as [o|] eqn:Hcand; [|done].
  by rewrite (Hfail o eq_refl).
Qed.

Lemma flushed_from_entry c ck e :
  flushed_from c ck → flushed_from c (flush_entry ck e).
Proof.
  intros [Hnext Hcase].
  pose proof (flush_entry_next_object ck e) as Hmono.
  split; [lia|].
  unfold flush_entry in *.
  destruct (candidate _ _) as [o|] eqn:Hcand; [|done].
  destruct (checkAfterUpdate (qe_set e) o) eqn:Hcheck; [|done].
  right. exists (next_object ck), o. simpl.
  split; [done|]. split; [done|]. split; [by rewrite lookup_insert_eq|].
  unfold checkAfterUpdate in Hcheck. by apply andb_true_iff in Hcheck as [? _].
Qed.

Lemma flushed_from_foldl q : ∀ c ck,
  flushed_from c ck → flushed_from c (foldl flush_entry ck q).
Proof.
  induction q as [|e q IH]; intros c ck H; [done|].
  simpl. apply IH. by apply flushed_from_entry.
Qed.

End cache_validation.

(** C4.  A set that [checkBeforeUpdate] refuses (one that refers to an
    unknown parent, for instance) is not enqueued and the cache stays as it
    is.  A flushed entry whose composite [checkAfterUpdate] refuses (one
    whose sets do not refer to each other, for instance) is discarded: the
    current object and the store are as before.  Over a whole flush the
    current object is either the previous one, untouched, or a new
    composite that passed the check, the previous one keeping its content
    for whoever still holds it. *)
Theorem rejected_sets_leave_current_unchanged
    (collides : ParameterSetCache.Cache → ParameterSetCache.ParameterSet → bool)
    (ops : list ParameterSetCache.CacheOp)
    (ps : ParameterSetCache.ParameterSet) (n : Z)
    (e : ParameterSetCache.ParameterSetQueueEntry) :
  let c := ParameterSetCache.run collides ops ParameterSetCache.empty in
  (ParameterSetCache.checkBeforeUpdate collides c ps = false →
     ParameterSetCache.onParametersUpdate collides ps n c
     = (ParameterSetCache.Rejected, c))
  ∧ (ParameterSetCache.parent_known c ps = false →
     ParameterSetCache.checkBeforeUpdate collides c ps = false)
  ∧ ((∀ o, ParameterSetCache.candidate
             (ParameterSetCache.qe_updateSequenceCount e)
             (ParameterSetCache.set_applied (ParameterSetCache.qe_set e) c)
           = Some o →
           ParameterSetCache.checkAfterUpdate (ParameterSetCache.qe_set e) o
           = false) →
     ParameterSetCache.current (ParameterSetCache.flush_entry c e)
     = ParameterSetCache.current c
     ∧ ParameterSetCache.store (ParameterSetCache.flush_entry c e)
       = ParameterSetCache.store c)
  ∧ (∀ o, ParameterSetCache.consistent (ParameterSetCache.ap_sets o) = false →
          ParameterSetCache.checkAfterUpdate (ParameterSetCache.qe_set e) o
          = false)
  ∧ (let c' := (ParameterSetCache.flushQueue c).2 in
     (ParameterSetCache.current c' = ParameterSetCache.current c
      ∧ ParameterSetCache.store c' = ParameterSetCache.store c)
     ∨ (∃ h o, ParameterSetCache.current c' = Some h
          ∧ ParameterSetCache.current c' ≠ ParameterSetCache.current c
          ∧ ParameterSetCache.store c' !! h = Some o
          ∧ ParameterSetCache.consistent (ParameterSetCache.ap_sets o) = true
          ∧ ∀ h0 o0, ParameterSetCache.current c = Some h0 →
              ParameterSetCache.store c' !! h0 = Some o0 →
              ∃ o1, ParameterSetCache.store c !! h0 = Some o1
                    ∧ same_content o1 o0)).
Proof.
  intros c.
  assert (Hinv : store_inv c) by apply store_inv_run, store_inv_empty.
  split; [|split; [|split; [|split]]].
  - intros Hcheck. unfold ParameterSetCache.onParametersUpdate.
    by rewrite Hcheck.
  - intros Hparent. unfold ParameterSetCache.checkBeforeUpdate.
    rewrite Hparent. by rewrite andb_false_r.
  - intros Hfail.
    by destruct (flush_entry_discarded c e Hfail) as (? & ? & _).
  - intros o Ho. unfold ParameterSetCache.checkAfterUpdate. by rewrite Ho.
  - intros c'.
    destruct (flushed_from_foldl (ParameterSetCache.queue c) c c
                (flushed_from_refl c)) as [Hnext [(Hcur & Hst & _)|Hnew]].
    + left. by split.
    + right. destruct Hnew as (h & o & Hcur & Hge & Ho & Hcons).
      exists h, o. subst c'. simpl.
      split; [done|]. split.
      { rewrite Hcur. intros Heq. symmetry in Heq.
        destruct Hinv as (Hcnt & _ & Hc).
        destruct (Hc h Heq) as [o0 Ho0]. destruct (Hcnt h o0 Ho0). lia. }
      split; [done|]. split; [done|].
      intros h0 o0 Hh0 Ho0.
      apply (foldl_flush_content (ParameterSetCache.queue c)); [|done].
      destruct Hinv as (Hcnt & _ & Hc).
      destruct (Hc h0 Hh0) as [o1 Ho1]. by destruct (Hcnt h0 o1 Ho1).
Qed.

Lemma rejected_sets_leave_current_unchanged_witness :
  let c := ParameterSetCache.run ParameterSetCache.no_collision
             scenario_start ParameterSetCache.empty in
  let e := {| ParameterSetCache.qe_set := pps_orphan;
              ParameterSetCache.qe_updateSequenceCount := 5 |} in
  ParameterSetCache.parent_known c pps_orphan = false
  ∧ ParameterSetCache.onParametersUpdate ParameterSetCache.no_collision
      pps_orphan 5 c = (ParameterSetCache.Rejected, c)
  ∧ ParameterSetCache.current (ParameterSetCache.flush_entry c e) = Some 0%nat
  ∧ ParameterSetCache.store (ParameterSetCache.flush_entry c e)
    = ParameterSetCache.store c
  ∧ ParameterSetCache.inspect (ParameterSetCache.flush_entry c e) 0
    = Some (sets_of vps1 sps1 pps1).
Proof.
  intros c e.
  destruct (rejected_sets_leave_current_unchanged ParameterSetCache.no_collision
              scenario_start pps_orphan 5 e)
    as (Hrej & Hparent & Hdiscard & _ & _).
  fold c in Hrej, Hparent, Hdiscard.
  assert (Hp : ParameterSetCache.parent_known c pps_orphan = false)
    by reflexivity.
  assert (Hfail : ∀ o,
            ParameterSetCache.candidate
              (ParameterSetCache.qe_updateSequenceCount e)
              (ParameterSetCache.set_applied (ParameterSetCache.qe_set e) c)
            = Some o →
            ParameterSetCache.checkAfterUpdate (ParameterSetCache.qe_set e) o
            = false).
  { intros o Ho. vm_compute in Ho. injection Ho as <-. reflexivity. }
  destruct (Hdiscard Hfail) as [Hcur Hst].
  split; [exact Hp|]. split; [exact (Hrej (Hparent Hp))|].
  split; [rewrite Hcur; reflexivity|]. split; [exact Hst|].
  unfold ParameterSetCache.inspect. rewrite Hst. reflexivity.
Defined.

(** * Further properties of the embedded code *)

(** ** The frame slot table and its device *)

Lemma protocol_ok_app held log1 log2 :
  protocol_ok held (log1 ++ log2)
  = protocol_ok held log1 && protocol_ok (pool_held held log1) log2.
Proof.
  revert held. induction log1 as [|c log1 IH]; intros held; [done|].
  simpl. rewrite IH. by rewrite andb_assoc.
Qed.

Lemma pool_held_app held log1 log2 :
  pool_held held (log1 ++ log2) = pool_held (pool_held held log1) log2.
Proof. unfold pool_held. apply foldl_app. Qed.

Section device_protocol.
Context {D : Type} `{!VulkanDeviceContext D}.
Implicit Types (s : NvVkDecodeFrameData * World D).

Lemma extends_in_order_refl s : extends_in_order s s.
Proof. exists []. by rewrite app_nil_r. Qed.

Lemma extends_in_order_trans s1 s2 s3 :
  extends_in_order s1 s2 → extends_in_order s2 s3 → extends_in_order s1 s3.
Proof.
  intros (new1 & Hc1 & Hok1 & Hheld1) (new2 & Hc2 & Hok2 & Hheld2).
  exists (new1 ++ new2). split; [by rewrite Hc2, Hc1, app_assoc|].
  split; [by rewrite protocol_ok_app, Hok1, Hheld1|].
  by rewrite pool_held_app, Hheld1.
Qed.

Lemma resize_in_order s n width height chroma a1 a2 :
  extends_in_order s
    (final_state (FrameData.resize n width height chroma a1 a2 s)).
Proof.
  destruct s as [this w]. destruct (m_vkDevCtx this) eqn:Hctx.
  - destruct (decide (m_videoCommandPool this = VK_NULL_HANDLE)) as [Hnull|Hpool].
    + rewrite resize_without_pool by done. cbv zeta.
      destruct (CreateCommandPool _ _) as [[r p] d]. simpl.
      destruct (r =? VK_SUCCESS).
      * destruct (AllocateCommandBuffers _ _) as [[r' hs] d']. simpl.
        destruct (r' =? VK_SUCCESS); simpl.
        all: eexists; (split; [simpl; rewrite <- app_assoc; reflexivity|]);
          simpl; rewrite Hnull; simpl; rewrite Z.eqb_refl; done.
      * eexists. split; [simpl; reflexivity|]. simpl. rewrite Hnull. done.
    + rewrite resize_with_pool by done. cbv zeta.
      destruct (AllocateCommandBuffers _ _) as [[r' hs] d']. simpl.
      destruct (r' =? VK_SUCCESS); simpl.
      all: eexists; (split; [simpl; reflexivity|]);
        simpl; rewrite Z.eqb_refl; done.
  - rewrite resize_without_ctx by done. apply extends_in_order_refl.
Qed.

Lemma deinit_without_ctx s :
  m_videoCommandPool s.1 ≠ VK_NULL_HANDLE → m_vkDevCtx s.1 = false →
  FrameData.deinit s = Abort s.
Proof.
  intros Hpool Hctx. unfold FrameData.deinit. munfold. simpl.
  destruct (Z.eqb_spec (m_videoCommandPool s.1) VK_NULL_HANDLE) as [|_];
    [done|].
  simpl. by rewrite Hctx.
Qed.

Lemma deinit_in_order s :
  extends_in_order s (final_state (FrameData.deinit s)).
Proof.
  destruct (decide (m_videoCommandPool s.1 = VK_NULL_HANDLE)) as [Hnull|Hpool].
  - rewrite deinit_without_pool by done. apply extends_in_order_refl.
  - destruct (m_vkDevCtx s.1) eqn:Hctx.
    + rewrite deinit_with_pool by done. cbv zeta.
      eexists. split; [simpl; reflexivity|]. simpl. rewrite Z.eqb_refl.
      destruct (Z.eqb_spec (m_videoCommandPool s.1) VK_NULL_HANDLE); done.
    + rewrite deinit_without_ctx by done. apply extends_in_order_refl.
Qed.

Lemma call_in_order s c :
  extends_in_order s (final_state (FrameData.call c s)).
Proof.
  destruct c as [n w h chroma a1 a2|]; simpl.
  - pose proof (resize_in_order s n w h chroma a1 a2) as H.
    unfold bind, ret. by destruct (FrameData.resize _ _ _ _ _ _ s).
  - apply deinit_in_order.
Qed.

Lemma call_all_in_order cs : ∀ s,
  extends_in_order s (final_state (FrameData.call_all cs s)).
Proof.
  induction cs as [|c cs IH]; intros s; [apply extends_in_order_refl|].
  simpl. unfold bind.
  pose proof (call_in_order s c) as H.
  destruct (FrameData.call c s) as [[] s'|s'|code s']; simpl in *; [|done..].
  eapply extends_in_order_trans; [exact H|apply IH].
Qed.

End device_protocol.

(** X1. Whatever sequence of [resize] and [deinit] calls a client makes on
    a constructed table, the table uses its device in order: it creates a
    command pool only while it holds none, allocates only from the pool it
    holds, and frees command buffers from and destroys only the pool it
    holds, never a null one and never the same pool twice; at the end it
    holds the pool the calls say. *)
Theorem device_calls_are_in_order
    {D} `{!VulkanDeviceContext D} (vkDevCtx : bool) (w0 : World D)
    (cs : list FrameData.Call) :
  let s := final_state (FrameData.call_all cs (FrameData.construct vkDevCtx, w0)) in
  ∃ new, calls s.2 = calls w0 ++ new
         ∧ protocol_ok VK_NULL_HANDLE new = true
         ∧ pool_held VK_NULL_HANDLE new = m_videoCommandPool s.1.
Proof.
  intros s.
  destruct (call_all_in_order cs (FrameData.construct vkDevCtx, w0))
    as (new & Hc & Hok & Hheld).
  by exists new.
Qed.

Section quiet.
Context {D : Type} `{!VulkanDeviceContext D}.
Implicit Types (s : NvVkDecodeFrameData * World D).

Lemma extends_quietly_refl s : extends_quietly s s.
Proof. split; [done|]. exists []. by rewrite app_nil_r. Qed.

Lemma extends_quietly_trans s1 s2 s3 :
  extends_quietly s1 s2 → extends_quietly s2 s3 → extends_quietly s1 s3.
Proof.
  intros (Herr1 & new1 & Hc1 & Hok1) (Herr2 & new2 & Hc2 & Hok2).
  split; [congruence|]. exists (new1 ++ new2).
  split; [by rewrite Hc2, Hc1, app_assoc|]. by apply Forall_app.
Qed.

Lemma resize_quiet s n width height chroma a1 a2 :
  returned (FrameData.resize n width height chroma a1 a2 s) = true →
  extends_quietly s (final_state (FrameData.resize n width height chroma a1 a2 s)).
Proof.
  destruct s as [this w]. destruct (m_vkDevCtx this) eqn:Hctx;
    [|by rewrite (resize_without_ctx (this, w))].
  destruct (decide (m_videoCommandPool this = VK_NULL_HANDLE)) as [Hnull|Hpool].
  - rewrite resize_without_pool by done. cbv zeta.
    destruct (CreateCommandPool _ _) as [[r p] d]. simpl.
    destruct (Z.eqb_spec r VK_SUCCESS) as [->|]; [|done].
    destruct (AllocateCommandBuffers _ _) as [[r' hs] d']. simpl.
    destruct (Z.eqb_spec r' VK_SUCCESS) as [->|]; [|done].
    intros _. split; [done|]. eexists. simpl.
    split; [by rewrite <- app_assoc|]. by repeat constructor.
  - rewrite resize_with_pool by done. cbv zeta.
    destruct (AllocateCommandBuffers _ _) as [[r' hs] d']. simpl.
    destruct (Z.eqb_spec r' VK_SUCCESS) as [->|]; [|done].
    intros _. split; [done|]. eexists. simpl.
    split; [done|]. by repeat constructor.
Qed.

Lemma deinit_quiet s :
  returned (FrameData.deinit s) = true →
  extends_quietly s (final_state (FrameData.deinit s)).
Proof.
  destruct (decide (m_videoCommandPool s.1 = VK_NULL_HANDLE)) as [Hnull|Hpool].
  { rewrite deinit_without_pool by done. intros _. apply extends_quietly_refl. }
  destruct (m_vkDevCtx s.1) eqn:Hctx.
  - rewrite deinit_with_pool by done. cbv zeta. intros _.
    split; [done|]. eexists. simpl. split; [done|]. by repeat constructor.
  - by rewrite deinit_without_ctx.
Qed.

Lemma call_all_quiet cs : ∀ s,
  returned (FrameData.call_all cs s) = true →
  extends_quietly s (final_state (FrameData.call_all cs s)).
Proof.
  induction cs as [|c cs IH]; intros s; [intros _; apply extends_quietly_refl|].
  cbn [FrameData.call_all]. unfold bind at 1 2.
  assert (Hc : returned (FrameData.call c s) = true →
               extends_quietly s (final_state (FrameData.call c s))).
  { destruct c as [n w h chroma a1 a2|]; cbn [FrameData.call].
    - pose proof (resize_quiet s n w h chroma a1 a2) as H.
      unfold bind, ret. by destruct (FrameData.resize _ _ _ _ _ _ s).
    - apply deinit_quiet. }
  destruct (FrameData.call c s) as [[] s'|s'|code s']; [|done..].
  intros Hret. eapply extends_quietly_trans; [by apply Hc|by apply IH].
Qed.

End quiet.

(** X2. A sequence of [resize] and [deinit] calls that runs to its end has
    printed neither of the two error messages of [resize], and every
    device call it made was answered with success: each message sits
    behind an assertion on the same result, so a failed device call never
    lets the sequence go on. *)
Theorem completed_calls_print_nothing
    {D} `{!VulkanDeviceContext D} (s : NvVkDecodeFrameData * World D)
    (cs : list FrameData.Call) :
  returned (FrameData.call_all cs s) = true →
  let s' := final_state (FrameData.call_all cs s) in
  stderr s'.2 = stderr s.2
  ∧ ∃ new, calls s'.2 = calls s.2 ++ new
           ∧ Forall (λ c, call_result c = VK_SUCCESS) new.
Proof. apply call_all_quiet. Qed.

Lemma completed_calls_print_nothing_witness :
  returned (FrameData.call_all grow_to_table5
              (FrameData.construct true, test_world)) = true
  ∧ stderr (final_state (FrameData.call_all grow_to_table5
                           (FrameData.construct true, test_world))).2 = []
  ∧ length (calls (final_state (FrameData.call_all grow_to_table5
                      (FrameData.construct true, test_world))).2) = 3%nat.
Proof.
  assert (H : returned (FrameData.call_all grow_to_table5
                          (FrameData.construct true, test_world)) = true)
    by reflexivity.
  split; [exact H|].
  destruct (completed_calls_print_nothing
              (FrameData.construct true, test_world) grow_to_table5 H)
    as (Herr & new & Hcalls & Hok).
  split; [exact Herr|reflexivity].
Defined.

(** ** The slots of the table across [resize] and [deinit] *)

Lemma vector_resize_lookup_old (v : list Z) n (i : nat) :
  (i < Z.to_nat n)%nat → (i < length v)%nat → vector_resize n v !! i = v !! i.
Proof. unfold vector_resize. intros. by apply lookup_resize. Qed.

Lemma vector_store_lookup_below (v hs : list Z) first (i : nat) :
  (i < Z.to_nat first)%nat → vector_store first hs v !! i = v !! i.
Proof. unfold vector_store. intros. by apply list_lookup_inserts_lt. Qed.

Lemma vector_store_resize_same (v hs : list Z) :
  vector_store (vector_size v) hs (vector_resize (vector_size v) v) = v.
Proof.
  unfold vector_store, vector_resize, vector_size.
  rewrite Nat2Z.id, resize_all.
  apply list_eq. intros i. destruct (decide (i < length v)%nat).
  - by rewrite list_lookup_inserts_lt.
  - rewrite !lookup_ge_None_2; [done|lia|rewrite length_inserts; lia].
Qed.

Section slots.
Context {D : Type} `{!VulkanDeviceContext D}.
Implicit Types (this : NvVkDecodeFrameData) (w : World D).

(** What a returning [resize] leaves in the vector. *)
Lemma resize_returns_buffers this w n width height chroma a1 a2 v this' w' :
  FrameData.resize n width height chroma a1 a2 (this, w) = Ret v (this', w') →
  v = FrameData.size this
  ∧ ∃ hs, m_commandBuffers this'
          = vector_store (FrameData.size this) hs
              (vector_resize n (m_commandBuffers this)).
Proof.
  destruct (m_vkDevCtx this) eqn:Hctx;
    [|by rewrite (resize_without_ctx (this, w))].
  destruct (decide (m_videoCommandPool this = VK_NULL_HANDLE)) as [Hnull|Hpool].
  - rewrite resize_without_pool by done. cbv zeta.
    destruct (CreateCommandPool _ _) as [[r p] d]. simpl.
    destruct (r =? VK_SUCCESS); [|done].
    destruct (AllocateCommandBuffers _ _) as [[r' hs] d']. simpl.
    destruct (r' =? VK_SUCCESS); [|done].
    intros [= <- <- <-]. split; [done|]. by exists hs.
  - rewrite resize_with_pool by done. cbv zeta.
    destruct (AllocateCommandBuffers _ _) as [[r' hs] d']. simpl.
    destruct (r' =? VK_SUCCESS); [|done].
    intros [= <- <- <-]. split; [done|]. by exists hs.
Qed.

End slots.

(** X3. After a [resize(n, ...)] that returns, the table has exactly the
    slots [0, n): [GetCommandBuffer] answers for every slot below [n] and
    fails its assertion from [n] on, and every slot that existed before
    and still exists holds the command buffer it held.  This also covers
    [n] below the previous count. *)
Theorem resize_then_GetCommandBuffer
    {D} `{!VulkanDeviceContext D} (this this' : NvVkDecodeFrameData)
    (w w' : World D) (n width height chroma a1 a2 v slot : Z) :
  0 ≤ n → 0 ≤ slot →
  FrameData.resize n width height chroma a1 a2 (this, w) = Ret v (this', w') →
  (if bool_decide (slot < n)
   then ∃ cb, FrameData.GetCommandBuffer slot this' = Ret cb this'
              ∧ (slot < FrameData.size this →
                 FrameData.GetCommandBuffer slot this = Ret cb this)
   else FrameData.GetCommandBuffer slot this' = Abort this').
Proof.
  intros Hn Hslot Hres.
  destruct (resize_returns_buffers _ _ _ _ _ _ _ _ _ _ _ Hres) as (-> & hs & Hbufs).
  assert (Hsize : FrameData.size this' = n).
  { unfold FrameData.size. rewrite Hbufs.
    by rewrite vector_size_store, vector_size_resize. }
  case_bool_decide as Hlt.
  - destruct (GetCommandBuffer_in_range this' slot) as (cb & Hcb & Hget); [lia|].
    exists cb. split; [done|]. intros Hold.
    destruct (GetCommandBuffer_in_range this slot) as (cb0 & Hcb0 & Hget0); [lia|].
    rewrite Hget0. f_equal.
    rewrite Hbufs in Hcb.
    unfold FrameData.size, vector_size in Hold.
    rewrite vector_store_lookup_below in Hcb
      by (unfold FrameData.size, vector_size; lia).
    rewrite vector_resize_lookup_old in Hcb by lia. congruence.
  - apply GetCommandBuffer_out_of_range. lia.
Qed.

Lemma resize_then_GetCommandBuffer_witness :
  ∃ this' w',
    0 ≤ 8 ∧ 0 ≤ 6
    ∧ resize_to 8 (table5, test_world) = Ret 5 (this', w')
    ∧ ∃ cb, FrameData.GetCommandBuffer 6 this' = Ret cb this'.
Proof.
  destruct (resize_to 8 (table5, test_world)) as [v [this' w']| |] eqn:E;
    [|vm_compute in E; discriminate..].
  assert (v = 5) as -> by (vm_compute in E; by injection E as <- _).
  exists this', w'.
  assert (H8 : 0 ≤ 8) by (vm_compute; discriminate).
  assert (H6 : 0 ≤ 6) by (vm_compute; discriminate).
  split; [exact H8|]. split; [exact H6|]. split; [reflexivity|].
  pose proof (resize_then_GetCommandBuffer table5 this' test_world w'
                8 1920 1080 2 256 256 5 6 H8 H6 E) as H.
  change (bool_decide (6 < 8)) with true in H. cbv iota in H.
  destruct H as (cb & Hget & _). by exists cb.
Defined.

(** X4. [GetCommandBuffer] hands back what the device stored: after a
    successful [resize(n, ...)], with [n] within [uint32_t], of a table
    that has its pool, slot [previousCount + j] holds the [j]-th handle
    the device stored, and a new slot the device stored nothing for holds
    the null handle. *)
Theorem resize_stores_device_handles
    {D} `{!VulkanDeviceContext D} (this : NvVkDecodeFrameData) (w : World D)
    (n width height chroma a1 a2 : Z) (j : nat) :
  m_vkDevCtx this = true →
  m_videoCommandPool this ≠ VK_NULL_HANDLE →
  n ≤ UINT32_MAX →
  let old := FrameData.size this in
  let res := AllocateCommandBuffers (device w)
               (cmdInfo_of (m_videoCommandPool this)
                  (uint32_t_of (size_t_of (n - old)))) in
  res.1.1 = VK_SUCCESS →
  old + Z.of_nat j < n →
  ∃ this' w',
    FrameData.resize n width height chroma a1 a2 (this, w) = Ret old (this', w')
    ∧ FrameData.GetCommandBuffer (old + Z.of_nat j) this'
      = Ret (default VK_NULL_HANDLE (res.1.2 !! j)) this'.
Proof.
  intros Hctx Hpool _ old res Hok Hj.
  rewrite resize_with_pool by done. cbv zeta. fold old. fold res.
  rewrite Hok. simpl. eexists _, _. split; [reflexivity|].
  set (this' := {| m_vkDevCtx := true |}).
  destruct (GetCommandBuffer_in_range this' (old + Z.of_nat j))
    as (cb & Hcb & Hget).
  { subst this'. unfold FrameData.size. simpl.
    rewrite vector_size_store, vector_size_resize; subst old;
      unfold FrameData.size, vector_size in *; lia. }
  rewrite Hget. f_equal.
  subst this'. simpl in Hcb. unfold vector_store, vector_resize in Hcb.
  subst old. unfold FrameData.size, vector_size in *.
  replace (Z.to_nat (Z.of_nat (length (m_commandBuffers this)) + Z.of_nat j))
    with (length (m_commandBuffers this) + j)%nat in Hcb by lia.
  rewrite Nat2Z.id in Hcb.
  destruct (res.1.2 !! j) as [h|] eqn:Hh; simpl.
  - rewrite list_lookup_inserts in Hcb.
    + replace (length (m_commandBuffers this) + j
               - length (m_commandBuffers this))%nat with j in Hcb by lia.
      congruence.
    + apply lookup_lt_Some in Hh. lia.
    + rewrite length_resize. lia.
  - apply lookup_ge_None in Hh.
    rewrite list_lookup_inserts_ge in Hcb by lia.
    rewrite lookup_resize_new in Hcb by lia. congruence.
Qed.

Lemma resize_stores_device_handles_witness :
  m_vkDevCtx table5 = true
  ∧ m_videoCommandPool table5 ≠ VK_NULL_HANDLE
  ∧ 8 ≤ UINT32_MAX
  ∧ (AllocateCommandBuffers (device test_world) (cmdInfo_of 100 3)).1.1
    = VK_SUCCESS
  ∧ FrameData.size table5 + Z.of_nat 1 < 8
  ∧ ∃ this' w',
      resize_to 8 (table5, test_world) = Ret 5 (this', w')
      ∧ FrameData.GetCommandBuffer 6 this' = Ret 101 this'.
Proof.
  assert (H1 : m_vkDevCtx table5 = true) by reflexivity.
  assert (H2 : m_videoCommandPool table5 ≠ VK_NULL_HANDLE)
    by (vm_compute; discriminate).
  assert (Hn : 8 ≤ UINT32_MAX) by (vm_compute; discriminate).
  assert (H3 : (AllocateCommandBuffers (device test_world)
                  (cmdInfo_of 100 3)).1.1 = VK_SUCCESS) by reflexivity.
  assert (H4 : FrameData.size table5 + Z.of_nat 1 < 8) by reflexivity.
  split; [exact H1|]. split; [exact H2|]. split; [exact Hn|].
  split; [exact H3|]. split; [exact H4|].
  destruct (resize_stores_device_handles table5 test_world 8 1920 1080 2 256 256
              1 H1 H2 Hn H3 H4) as (this' & w' & Hres & Hget).
  exists this', w'. split; [exact Hres|]. exact Hget.
Defined.

(** X5. A table constructed with a null device context never reaches the
    device: every [resize] stops at its first assertion, [deinit] does
    nothing, and neither changes the table, the driver or the log of
    device calls; so a sequence of calls runs to its end exactly when it
    holds no [resize]. *)
Theorem null_context_never_calls_device
    {D} `{!VulkanDeviceContext D} (w0 : World D) (cs : list FrameData.Call) :
  let o := FrameData.call_all cs (FrameData.construct false, w0) in
  (final_state o).1 = FrameData.construct false
  ∧ calls (final_state o).2 = calls w0
  ∧ device (final_state o).2 = device w0
  ∧ returned o = forallb is_deinit cs.
Proof.
  cbv zeta.
  assert (H : final_state (FrameData.call_all cs (FrameData.construct false, w0))
              = (FrameData.construct false, w0)
              ∧ returned (FrameData.call_all cs (FrameData.construct false, w0))
                = forallb is_deinit cs).
  { induction cs as [|c cs [IHs IHr]]; [done|].
    destruct c as [n w h chroma a1 a2|];
      cbn [FrameData.call_all FrameData.call forallb is_deinit andb]; unfold bind.
    - by rewrite (resize_without_ctx (FrameData.construct false, w0)).
    - by rewrite deinit_without_pool. }
  destruct H as [-> ->]. done.
Qed.

(** X6. When [CreateCommandPool] fails, [resize] stops at the assertion
    right after it: that creation is the only device call made, no command
    buffers are requested, and the slot vector is as it was. *)
Theorem resize_stops_at_failed_pool_creation
    {D} `{!VulkanDeviceContext D} (this : NvVkDecodeFrameData) (w : World D)
    (n width height chroma a1 a2 : Z) :
  m_vkDevCtx this = true →
  m_videoCommandPool this = VK_NULL_HANDLE →
  let info := cmdPoolInfo_of (GetVideoDecodeQueueFamilyIdx (device w)) in
  let res := CreateCommandPool (device w) info in
  res.1.1 ≠ VK_SUCCESS →
  ∃ this' w',
    FrameData.resize n width height chroma a1 a2 (this, w) = Abort (this', w')
    ∧ calls w' = calls w ++ [CallCreateCommandPool info res.1.1 res.1.2]
    ∧ m_commandBuffers this' = m_commandBuffers this
    ∧ m_videoCommandPool this' = res.1.2.
Proof.
  intros Hctx Hpool info res Hfail.
  rewrite resize_without_pool by done. cbv zeta. fold info. fold res.
  rewrite (proj2 (Z.eqb_neq _ _) Hfail). eexists _, _. by split.
Qed.

Lemma resize_stops_at_failed_pool_creation_witness :
  m_vkDevCtx (FrameData.construct true) = true
  ∧ m_videoCommandPool (FrameData.construct true) = VK_NULL_HANDLE
  ∧ (CreateCommandPool (device broken_world) (cmdPoolInfo_of 3)).1.1
    ≠ VK_SUCCESS
  ∧ ∃ this' w',
      resize_to 4 (FrameData.construct true, broken_world) = Abort (this', w')
      ∧ calls w' = [CallCreateCommandPool (cmdPoolInfo_of 3)
                      VK_ERROR_OUT_OF_DEVICE_MEMORY VK_NULL_HANDLE]
      ∧ m_commandBuffers this' = [].
Proof.
  assert (H1 : m_vkDevCtx (FrameData.construct true) = true) by reflexivity.
  assert (H2 : m_videoCommandPool (FrameData.construct true) = VK_NULL_HANDLE)
    by reflexivity.
  assert (H3 : (CreateCommandPool (device broken_world) (cmdPoolInfo_of 3)).1.1
               ≠ VK_SUCCESS) by (vm_compute; discriminate).
  split; [exact H1|]. split; [exact H2|]. split; [exact H3|].
  destruct (resize_stops_at_failed_pool_creation (FrameData.construct true)
              broken_world 4 1920 1080 2 256 256 H1 H2 H3)
    as (this' & w' & Hres & Hcalls & Hbufs & _).
  exists this', w'. split; [exact Hres|]. split; [exact Hcalls|]. exact Hbufs.
Defined.

(** X7. Teardown twice is teardown once: on every table a client can
    reach, the destructor after an explicit [deinit] makes no device call
    and changes nothing, so no command buffer is freed and no pool
    destroyed a second time. *)
Theorem deinit_twice_is_deinit
    {D} `{!VulkanDeviceContext D} (vkDevCtx : bool) (w0 : World D)
    (cs : list FrameData.Call) :
  let s := final_state (FrameData.call_all cs (FrameData.construct vkDevCtx, w0)) in
  bind FrameData.deinit (λ _, FrameData.destructor) s = FrameData.deinit s
  ∧ returned (FrameData.deinit s) = true.
Proof.
  intros s.
  assert (Hinv : pool_needs_ctx s).
  { apply pool_needs_ctx_call_all. by intros []. }
  unfold bind, FrameData.destructor.
  destruct (decide (m_videoCommandPool s.1 = VK_NULL_HANDLE)) as [Hnull|Hpool].
  - rewrite (deinit_without_pool s) by done. split; [|done].
    by apply deinit_without_pool.
  - rewrite deinit_with_pool by auto. cbv zeta. split; [|done].
    by apply deinit_without_pool.
Qed.

(** X8. [deinit] gives up the pool but keeps the slot vector: the slot
    count and the handles [GetCommandBuffer] returns are as before, though
    the command buffers behind them were freed.  A [resize] to the same
    count on a table without a pool therefore creates a pool and requests
    no command buffer from it, and the table goes on with the handles it
    had. *)
Theorem deinit_keeps_slots
    {D} `{!VulkanDeviceContext D} (s : NvVkDecodeFrameData * World D)
    (width height chroma a1 a2 : Z) :
  m_vkDevCtx s.1 = true →
  let s1 := final_state (FrameData.deinit s) in
  let n := FrameData.size s.1 in
  m_commandBuffers s1.1 = m_commandBuffers s.1
  ∧ m_videoCommandPool s1.1 = VK_NULL_HANDLE
  ∧ match FrameData.resize n width height chroma a1 a2 s1 with
    | Ret v (this', w') =>
        v = n
        ∧ m_commandBuffers this' = m_commandBuffers s.1
        ∧ calls w'
          = calls s1.2
            ++ [CallCreateCommandPool
                  (cmdPoolInfo_of (GetVideoDecodeQueueFamilyIdx (device s1.2)))
                  VK_SUCCESS (m_videoCommandPool this');
                CallAllocateCommandBuffers
                  (cmdInfo_of (m_videoCommandPool this') 0) n VK_SUCCESS]
    | Abort (this', w') =>
        ∃ c, last (calls w') = Some c ∧ call_result c ≠ VK_SUCCESS
    | Exit _ _ => False
    end.
Proof.
  intros Hctx s1 n.
  assert (Hs1 : m_commandBuffers s1.1 = m_commandBuffers s.1
                ∧ m_videoCommandPool s1.1 = VK_NULL_HANDLE
                ∧ m_vkDevCtx s1.1 = true).
  { subst s1.
    destruct (decide (m_videoCommandPool s.1 = VK_NULL_HANDLE)) as [Hnull|Hpool].
    - by rewrite deinit_without_pool.
    - by rewrite deinit_with_pool. }
  destruct Hs1 as (Hbufs & Hnull & Hctx1).
  split; [done|]. split; [done|].
  destruct s1 as [this1 w1]. simpl in *.
  rewrite resize_without_pool by done. cbv zeta.
  destruct (CreateCommandPool _ _) as [[r p] d]. simpl.
  destruct (Z.eqb_spec r VK_SUCCESS) as [->|Hr];
    [|eexists; split; [apply last_snoc|done]].
  assert (Hsz : FrameData.size this1 = n)
    by (subst n; unfold FrameData.size; by rewrite Hbufs).
  rewrite Hsz. replace (n - n) with 0 by lia.
  change (uint32_t_of (size_t_of 0)) with 0.
  destruct (AllocateCommandBuffers d _) as [[r' hs] d']. simpl.
  destruct (Z.eqb_spec r' VK_SUCCESS) as [->|Hr'];
    [|eexists; split; [apply last_snoc|done]].
  split; [done|]. split.
  - simpl. rewrite Hbufs. subst n. unfold FrameData.size.
    apply vector_store_resize_same.
  - simpl. by rewrite <- app_assoc.
Qed.

Lemma deinit_keeps_slots_witness :
  m_vkDevCtx (table5, test_world).1 = true
  ∧ m_commandBuffers (final_state (FrameData.deinit (table5, test_world))).1
    = [101; 102; 103; 104; 105]
  ∧ ∃ this' w',
      resize_to 5 (final_state (FrameData.deinit (table5, test_world)))
      = Ret 5 (this', w')
      ∧ m_commandBuffers this' = [101; 102; 103; 104; 105]
      ∧ m_videoCommandPool this' = 100.
Proof.
  assert (H1 : m_vkDevCtx (table5, test_world).1 = true) by reflexivity.
  split; [exact H1|].
  destruct (deinit_keeps_slots (table5, test_world) 1920 1080 2 256 256 H1)
    as (Hbufs & _ & Hres).
  split; [exact Hbufs|].
  fold (@resize_to TestDriver _ (FrameData.size (table5, test_world).1)) in Hres.
  change (FrameData.size (table5, test_world).1) with 5 in Hres.
  destruct (resize_to 5 (final_state (FrameData.deinit (table5, test_world))))
    as [v [this' w']| |] eqn:E; [|vm_compute in E; discriminate..].
  destruct Hres as (-> & Hb & _).
  exists this', w'. split; [reflexivity|]. split; [exact Hb|].
  vm_compute in E. by injection E as <- _.
Defined.

(** ** The decoder *)

Lemma GetCurrentFrameData_out_of_range dec slotId fds :
  FrameData.size (m_decodeFramesData dec) ≤ slotId →
  Decoder.GetCurrentFrameData slotId fds dec = Ret (-1, fds) dec.
Proof.
  intros Hge. unfold Decoder.GetCurrentFrameData.
  unfold bind at 1. unfold gets at 1.
  by rewrite bool_decide_eq_false_2 by lia.
Qed.

Lemma GetCurrentFrameData_in_range dec slotId fds :
  0 ≤ slotId < FrameData.size (m_decodeFramesData dec) →
  ∃ cb, Decoder.GetCurrentFrameData slotId fds dec
        = Ret (int32_t_of slotId, {| slot := slotId; commandBuffer := cb |}) dec.
Proof.
  intros Hlt. unfold Decoder.GetCurrentFrameData.
  destruct (GetCommandBuffer_in_range (m_decodeFramesData dec) slotId)
    as (cb & _ & Hget); [done|].
  exists cb. unfold bind at 1. unfold gets at 1.
  rewrite bool_decide_eq_true_2 by lia.
  unfold bind, zoom. rewrite Hget. unfold ret. simpl. by destruct dec.
Qed.

(** X9. As long as the table has at most 2^31 slots, the sign of what
    [GetCurrentFrameData] returns tells the two cases apart: the result is
    negative exactly when [slotId] is out of range, and a result that is
    not negative is [slotId] itself, with [frameDataSlot] set to that
    slot. *)
Theorem GetCurrentFrameData_sign
    (dec : VkVideoDecoder) (slotId : Z) (frameDataSlot : NvVkDecodeFrameDataSlot) :
  0 ≤ slotId ≤ UINT32_MAX →
  FrameData.size (m_decodeFramesData dec) ≤ INT32_MAX + 1 →
  ∃ r fds,
    Decoder.GetCurrentFrameData slotId frameDataSlot dec = Ret (r, fds) dec
    ∧ (r < 0 ↔ FrameData.size (m_decodeFramesData dec) ≤ slotId)
    ∧ (0 ≤ r → r = slotId ∧ slot fds = slotId).
Proof.
  intros Hslot Hsize.
  destruct (decide (slotId < FrameData.size (m_decodeFramesData dec)))
    as [Hlt|Hge].
  - destruct (GetCurrentFrameData_in_range dec slotId frameDataSlot)
      as (cb & Hget); [lia|].
    rewrite int32_t_of_small in Hget by lia.
    eexists _, _. split; [exact Hget|]. simpl. split; [lia|done].
  - rewrite GetCurrentFrameData_out_of_range by lia.
    eexists _, _. split; [reflexivity|]. split; lia.
Qed.

Lemma GetCurrentFrameData_sign_witness :
  0 ≤ 4294967295 ≤ UINT32_MAX
  ∧ FrameData.size (m_decodeFramesData decoder3) ≤ INT32_MAX + 1
  ∧ ∃ r fds,
      Decoder.GetCurrentFrameData 4294967295
        {| slot := 9; commandBuffer := 9 |} decoder3 = Ret (r, fds) decoder3
      ∧ r < 0.
Proof.
  assert (H1 : 0 ≤ 4294967295 ≤ UINT32_MAX)
    by (vm_compute; split; discriminate).
  assert (H2 : FrameData.size (m_decodeFramesData decoder3) ≤ INT32_MAX + 1)
    by (vm_compute; discriminate).
  split; [exact H1|]. split; [exact H2|].
  destruct (GetCurrentFrameData_sign decoder3 4294967295
              {| slot := 9; commandBuffer := 9 |} H1 H2)
    as (r & fds & Hget & Hneg & _).
  exists r, fds. split; [exact Hget|].
  apply Hneg. vm_compute. discriminate.
Defined.

(** X10. The constructor fails an assertion exactly when the device has
    no video decode queue family (index -1) or no decode queue; otherwise
    a negative [videoQueueIndx] selects the device's default queue index
    and any other one is reduced modulo the number of queues, so the two
    range assertions on the reduced index can never fail. *)
Theorem construct_defaultVideoQueueIndx_spec
    (videoQueueIndx queueFamilyIdx numQueues defaultQueueIndex : Z) :
  construct_defaultVideoQueueIndx videoQueueIndx queueFamilyIdx numQueues
    defaultQueueIndex tt
  = if (queueFamilyIdx =? -1) || (numQueues <=? 0) then Abort tt
    else if videoQueueIndx <? 0 then Ret defaultQueueIndex tt
    else Ret (videoQueueIndx mod numQueues) tt.
Proof.
  unfold construct_defaultVideoQueueIndx. munfold.
  destruct (Z.eqb_spec queueFamilyIdx (-1)) as [|_]; cbn [negb orb]; [done|].
  destruct (Z.leb_spec numQueues 0) as [Hq|Hq].
  { by rewrite (proj2 (Z.ltb_ge 0 numQueues)) by lia. }
  rewrite (proj2 (Z.ltb_lt 0 numQueues)) by lia.
  destruct (Z.ltb_spec videoQueueIndx 0) as [|Hv]; [done|].
  destruct (Z.ltb_spec 1 numQueues) as [Hq1|Hq1].
  - rewrite Z.rem_mod_nonneg by lia.
    pose proof (Z.mod_pos_bound videoQueueIndx numQueues ltac:(lia)).
    rewrite (proj2 (Z.ltb_lt (videoQueueIndx mod numQueues) numQueues)) by lia.
    by rewrite (proj2 (Z.leb_le 0 (videoQueueIndx mod numQueues))) by lia.
  - assert (numQueues = 1) as -> by lia. by rewrite Z.mod_1_r.
Qed.

(** ** The logger: what a statement writes *)

Section logger_facts.
Import simplelogger.
Implicit Types (p : Process) (lg : Logger) (str : string).

Lemma string_length_app (a b : string) :
  String.length (a +:+ b) = (String.length a + String.length b)%nat.
Proof. induction a as [|c a IH]; simpl; [done|]. by rewrite IH. Qed.

Lemma fmt02d_length n : 0 ≤ n ≤ 99 → String.length (fmt02d n) = 2%nat.
Proof.
  intros Hn.
  assert (Hall : Forall (λ k : nat, String.length (fmt02d (Z.of_nat k)) = 2%nat)
                   (seq 0 100)).
  { apply (bool_decide_unpack _). vm_compute. exact I. }
  rewrite Forall_forall in Hall.
  rewrite <- (Z2Nat.id n) by lia. apply Hall.
  apply elem_of_seq. lia.
Qed.

Lemma pad5_szLevels_length l :
  String.length (pad5 (szLevels l)) = 5%nat.
Proof.
  unfold szLevels.
  repeat (destruct (_ =? _); [reflexivity|]). reflexivity.
Qed.

Lemma GetLead_set_mtx b lg now l : GetLead (set_mtx b lg) now l = GetLead lg now l.
Proof. done. Qed.

End logger_facts.

Lemma LOG_suppressed
    (p : simplelogger.Process) (lg : simplelogger.Logger)
    (level : Z) (str : string) :
  simplelogger.logger p = Some lg →
  simplelogger.ShouldLogFor lg level = false →
  simplelogger.LOG level str p = Ret tt p.
Proof.
  intros Hlg Hno.
  unfold simplelogger.LOG, simplelogger.LogTransaction_ctor,
    simplelogger.LogTransaction_write, simplelogger.LogTransaction_dtor.
  munfold. simpl. rewrite Hlg, Hno. simpl. rewrite Hlg, Hno. simpl.
  by rewrite Hlg, Hno.
Qed.

(** The state an admitted statement leaves. *)
Lemma LOG_admitted
    (p : simplelogger.Process) (lg : simplelogger.Logger)
    (level : Z) (str : string) :
  simplelogger.logger p = Some lg →
  simplelogger.ShouldLogFor lg level = true →
  simplelogger.LOG level str p
  = (if level =? simplelogger.FATAL then Exit 1 else Ret tt)
      (simplelogger.set_logger
         (Some {| simplelogger.m_level := simplelogger.m_level lg;
                  simplelogger.m_szLead :=
                    simplelogger.GetLead lg (simplelogger.localtime p) level;
                  simplelogger.m_bPrintTimeStamp :=
                    simplelogger.m_bPrintTimeStamp lg;
                  simplelogger.m_mtx := false;
                  simplelogger.kind := simplelogger.kind lg |})
         (emit (simplelogger.kind lg) simplelogger.endl
            (emit (simplelogger.kind lg) str
               (emit (simplelogger.kind lg)
                  (simplelogger.GetLead lg (simplelogger.localtime p) level)
                  p)))).
Proof.
  intros Hlg Hyes.
  destruct p as [lg0 out file now]. simpl in Hlg. subst lg0.
  destruct lg as [lvl szLead stamp mtx k].
  unfold simplelogger.ShouldLogFor in Hyes. simpl in Hyes.
  unfold simplelogger.LOG, simplelogger.LogTransaction_ctor,
    simplelogger.LogTransaction_write, simplelogger.LogTransaction_dtor,
    simplelogger.write_logger.
  destruct k; munfold;
    repeat first [ rewrite Hyes | progress simpl
                 | progress unfold simplelogger.ShouldLogFor ];
    by destruct (level =? simplelogger.FATAL).
Qed.

Lemma LOG_null_logger
    (p : simplelogger.Process) (level : Z) (str : string) :
  simplelogger.logger p = None →
  simplelogger.LOG level str p
  = Ret tt (simplelogger.write_cout simplelogger.endl
              (simplelogger.write_cout str
                 (simplelogger.write_cout "[-----] " p))).
Proof.
  intros Hlg.
  unfold simplelogger.LOG, simplelogger.LogTransaction_ctor,
    simplelogger.LogTransaction_write, simplelogger.LogTransaction_dtor.
  munfold. simpl. rewrite Hlg. simpl. rewrite Hlg. simpl. by rewrite Hlg.
Qed.

(** X11. A statement below the logger's threshold does nothing at all:
    no output on any stream, the lock is not taken, the lead buffer is not
    touched, and the process goes on, whatever the level (a suppressed
    [FATAL], under a threshold above it, included). *)
Theorem LOG_below_threshold_is_silent
    (p : simplelogger.Process) (lg : simplelogger.Logger)
    (level : Z) (str : string) :
  simplelogger.logger p = Some lg →
  simplelogger.ShouldLogFor lg level = false →
  simplelogger.LOG level str p = Ret tt p.
Proof. apply LOG_suppressed. Qed.

Lemma LOG_below_threshold_is_silent_witness :
  let p := console_process (Some (simplelogger.CreateConsoleLogger None None)) in
  simplelogger.logger p = Some (simplelogger.CreateConsoleLogger None None)
  ∧ simplelogger.ShouldLogFor (simplelogger.CreateConsoleLogger None None)
      simplelogger.WARNING = false
  ∧ simplelogger.LOG simplelogger.WARNING "disk almost full" p = Ret tt p.
Proof.
  intros p.
  assert (H1 : simplelogger.logger p
               = Some (simplelogger.CreateConsoleLogger None None))
    by reflexivity.
  assert (H2 : simplelogger.ShouldLogFor
                 (simplelogger.CreateConsoleLogger None None)
                 simplelogger.WARNING = false) by reflexivity.
  split; [exact H1|]. split; [exact H2|].
  exact (LOG_below_threshold_is_silent p _ simplelogger.WARNING
           "disk almost full" H1 H2).
Defined.

(** X12. A statement the logger admits writes the lead, the text and a
    newline, in this order, to the logger's own stream and to no other,
    leaves the lead in the logger's buffer and the lock released, and
    changes nothing else; after that the process exits with code 1 if the
    level is [FATAL] and goes on otherwise. *)
Theorem LOG_admitted_writes_one_line
    (p : simplelogger.Process) (lg : simplelogger.Logger)
    (level : Z) (str : string) :
  simplelogger.logger p = Some lg →
  simplelogger.ShouldLogFor lg level = true →
  let lead := simplelogger.GetLead lg (simplelogger.localtime p) level in
  let k := simplelogger.kind lg in
  let p' :=
    simplelogger.set_logger
      (Some {| simplelogger.m_level := simplelogger.m_level lg;
               simplelogger.m_szLead := lead;
               simplelogger.m_bPrintTimeStamp := simplelogger.m_bPrintTimeStamp lg;
               simplelogger.m_mtx := false;
               simplelogger.kind := k |})
      (emit k simplelogger.endl (emit k str (emit k lead p))) in
  simplelogger.LOG level str p
  = if level =? simplelogger.FATAL then Exit 1 p' else Ret tt p'.
Proof.
  intros Hlg Hyes lead k p'. subst lead k p'.
  rewrite (LOG_admitted p lg level str Hlg Hyes).
  by destruct (level =? simplelogger.FATAL).
Qed.

Lemma LOG_admitted_writes_one_line_witness :
  let lg := simplelogger.CreateConsoleLogger (Some simplelogger.INFO) (Some false) in
  let p := console_process (Some lg) in
  simplelogger.logger p = Some lg
  ∧ simplelogger.ShouldLogFor lg simplelogger.WARNING = true
  ∧ simplelogger.cout (final_state (simplelogger.LOG simplelogger.WARNING "low" p))
    = "[WARN ] low" +:+ simplelogger.endl
  ∧ returned (simplelogger.LOG simplelogger.WARNING "low" p) = true.
Proof.
  intros lg p.
  assert (H1 : simplelogger.logger p = Some lg) by reflexivity.
  assert (H2 : simplelogger.ShouldLogFor lg simplelogger.WARNING = true)
    by reflexivity.
  split; [exact H1|]. split; [exact H2|].
  pose proof (LOG_admitted_writes_one_line p lg simplelogger.WARNING "low"
                H1 H2) as H.
  cbv zeta in H.
  change (simplelogger.WARNING =? simplelogger.FATAL) with false in H.
  cbv iota in H. rewrite H. split; reflexivity.
Defined.

(** X13. With no logger installed no level is filtered and none ends the
    process: a statement at any level prints the placeholder lead, the
    text and a newline on standard output and returns. *)
Theorem LOG_without_logger_prints_everything
    (p : simplelogger.Process) (level : Z) (str : string) :
  simplelogger.logger p = None →
  simplelogger.LOG level str p
  = Ret tt (simplelogger.write_cout simplelogger.endl
              (simplelogger.write_cout str
                 (simplelogger.write_cout "[-----] " p))).
Proof. apply LOG_null_logger. Qed.

Lemma LOG_without_logger_prints_everything_witness :
  simplelogger.logger (console_process None) = None
  ∧ simplelogger.cout
      (final_state (simplelogger.LOG simplelogger.TRACE "step" (console_process None)))
    = "[-----] step" +:+ simplelogger.endl.
Proof.
  assert (H1 : simplelogger.logger (console_process None) = None)
    by reflexivity.
  split; [exact H1|].
  rewrite (LOG_without_logger_prints_everything (console_process None)
             simplelogger.TRACE "step" H1).
  reflexivity.
Defined.

(** X14. The lead always has the same width, so it fits the 80-byte
    buffer [m_szLead] with room to spare and the columns of a log line up:
    8 characters without a time stamp or for a level outside the
    enumeration, 18 with a time stamp whose fields print in two digits. *)
Theorem GetLead_length
    (lg : simplelogger.Logger) (now : simplelogger.tm) (l : Z) :
  two_digit_time now →
  String.length (simplelogger.GetLead lg now l)
  = (if bool_decide (simplelogger.TRACE ≤ l ≤ simplelogger.FATAL)
        && simplelogger.m_bPrintTimeStamp lg
     then 18%nat else 8%nat)
  ∧ (String.length (simplelogger.GetLead lg now l) + 1 ≤ 80)%nat.
Proof.
  intros (Hh & Hm & Hs).
  assert (Hlen : String.length (simplelogger.GetLead lg now l)
                 = (if bool_decide (simplelogger.TRACE ≤ l ≤ simplelogger.FATAL)
                       && simplelogger.m_bPrintTimeStamp lg
                    then 18%nat else 8%nat)).
  { unfold simplelogger.GetLead.
    case_bool_decide as Hout.
    - rewrite bool_decide_eq_false_2 by (unfold simplelogger.TRACE,
        simplelogger.FATAL in *; lia). reflexivity.
    - rewrite bool_decide_eq_true_2 by (unfold simplelogger.TRACE,
        simplelogger.FATAL in *; lia).
      destruct (simplelogger.m_bPrintTimeStamp lg); simpl andb; cbv iota.
      + rewrite !string_length_app, pad5_szLevels_length,
          !fmt02d_length by done. reflexivity.
      + rewrite !string_length_app, pad5_szLevels_length. reflexivity. }
  split; [exact Hlen|]. rewrite Hlen.
  destruct (_ && _); lia.
Qed.

Lemma GetLead_length_witness :
  let lg := simplelogger.CreateConsoleLogger None None in
  let now := {| simplelogger.tm_hour := 23; simplelogger.tm_min := 59;
                simplelogger.tm_sec := 60 |} in
  two_digit_time now
  ∧ simplelogger.GetLead lg now simplelogger.INFO = "[INFO ][23:59:60] "
  ∧ String.length (simplelogger.GetLead lg now simplelogger.INFO) = 18%nat.
Proof.
  intros lg now.
  assert (H : two_digit_time now)
    by (repeat split; vm_compute; discriminate).
  split; [exact H|]. split; [reflexivity|].
  destruct (GetLead_length lg now simplelogger.INFO H) as [Hlen _].
  rewrite Hlen. reflexivity.
Defined.

(** X15. No statement reconfigures the logger or installs or removes
    one: after [LOG], whether it returned or ended the process, the same
    logger is installed with the threshold, the destination and the time
    stamp setting it had, so the same levels are admitted afterwards. *)
Theorem LOG_keeps_logger_configuration
    (p : simplelogger.Process) (level : Z) (str : string) :
  match simplelogger.logger p,
        simplelogger.logger (final_state (simplelogger.LOG level str p)) with
  | Some lg, Some lg' =>
      simplelogger.m_level lg' = simplelogger.m_level lg
      ∧ simplelogger.kind lg' = simplelogger.kind lg
      ∧ simplelogger.m_bPrintTimeStamp lg' = simplelogger.m_bPrintTimeStamp lg
      ∧ ∀ l, simplelogger.ShouldLogFor lg' l = simplelogger.ShouldLogFor lg l
  | None, None => True
  | _, _ => False
  end.
Proof.
  destruct (simplelogger.logger p) as [lg|] eqn:Hlg.
  - destruct (simplelogger.ShouldLogFor lg level) eqn:Hadm.
    + rewrite (LOG_admitted p lg level str Hlg Hadm).
      destruct (level =? simplelogger.FATAL); simpl;
        destruct (simplelogger.kind lg); simpl; done.
    + rewrite (LOG_suppressed p lg level str Hlg Hadm).
      simpl. by rewrite Hlg.
  - rewrite (LOG_null_logger p level str Hlg).
    simpl. by rewrite Hlg.
Qed.
